(** * Windows-Itanium CRT bootstrap: pseudo-relocations, start-up order,
      security cookie, DLL entry point and TLS directory.

    The development embeds the C++ sources of [compiler-rt/lib/crt]
    ([crt_windows_pseudo_reloc.cpp], [crt_windows_init.cpp],
    [crt_windows_security.cpp], [crt_windows.cpp], [crt_windows_tls.cpp] and
    the shared header [crt_windows_internal.h]) as functions over an explicit
    process state, and proves properties of them.

    Conventions.
    - Machine integers are [Z] with the wrap-around written out
      ([uwrap], [swrap]); bit operations are [Z.land], [Z.lor], [Z.lxor],
      [Z.shiftl].
    - Process memory is a function from byte addresses to bytes; all targets
      are little-endian.
    - Code that may kill the process lives in the monad [M]: a computation
      either returns a value and a new process state or terminates the
      process, recording how. *)

From Stdlib Require Import ZArith String List Bool Lia Sorted.
Import ListNotations.
Local Open Scope Z_scope.

(* ===================================================================== *)
(** * Part I: the model                                                   *)
(* ===================================================================== *)

(** ** Target architecture ([crt_windows_internal.h], architecture detection) *)

(** The four [CRT_ARCH_*] cases; ARM64EC defines [CRT_ARCH_ARM64] as well
    and is covered by [ARM64]. *)
Inductive Arch : Type := X86 | X64 | ARM | ARM64.

(** [CRT_ARCH_X64 || CRT_ARCH_ARM64]: the 64-bit targets. *)
Definition is64 (a : Arch) : bool :=
  match a with X64 | ARM64 => true | X86 | ARM => false end.

Definition isX86 (a : Arch) : bool :=
  match a with X86 => true | _ => false end.

(** [sizeof(void* ) * 8]; the header's [static_assert]s fix it per target. *)
Definition ptr_bits (a : Arch) : Z := if is64 a then 64 else 32.
Definition ptr_bytes (a : Arch) : nat := if is64 a then 8%nat else 4%nat.

(** ** Machine integers *)

(** Value of a [w]-bit unsigned integer after wrap-around. *)
Definition uwrap (w z : Z) : Z := z mod 2 ^ w.

(** Value of a [w]-bit two's-complement integer after wrap-around. *)
Definition swrap (w z : Z) : Z := (z + 2 ^ (w - 1)) mod 2 ^ w - 2 ^ (w - 1).

Definition INT32_MIN : Z := - 2 ^ 31.
Definition INT32_MAX : Z := 2 ^ 31 - 1.

(** ** Process memory and the [__builtin_memcpy] accesses

    Memory holds a byte at every address.  Page protection is kept apart
    from it (see [MemoryProtection]); an access does not fault in the
    model. *)

Definition Memory : Type := Z -> Z.

(** [n] bytes starting at [a], combined least-significant byte first. *)
Fixpoint load_le (m : Memory) (a : Z) (n : nat) : Z :=
  match n with
  | O => 0
  | S k => m a mod 256 + 256 * load_le m (a + 1) k
  end.

(** The [n] low bytes of [v] written at [a .. a+n-1]. *)
Definition store_le (m : Memory) (a : Z) (n : nat) (v : Z) : Memory :=
  fun x =>
    if (a <=? x) && (x <? a + Z.of_nat n)
    then (v / 256 ^ (x - a)) mod 256
    else m x.

Definition load_u32 (m : Memory) (a : Z) : Z := load_le m a 4.
Definition load_i8  (m : Memory) (a : Z) : Z := swrap 8  (load_le m a 1).
Definition load_i16 (m : Memory) (a : Z) : Z := swrap 16 (load_le m a 2).
Definition load_i32 (m : Memory) (a : Z) : Z := swrap 32 (load_le m a 4).
Definition load_i64 (m : Memory) (a : Z) : Z := swrap 64 (load_le m a 8).

(** The signed integer of [bits] bits stored at [a], for [bits] a multiple
    of 8: what [load_i8] ... [load_i64] read, by width. *)
Definition load_signed (bits : Z) (m : Memory) (a : Z) : Z :=
  swrap bits (load_le m a (Z.to_nat (bits / 8))).

(** ** Constants of [crt_windows_internal.h] *)

Definition kPageReadonly         : Z := 0x02.
Definition kPageReadwrite        : Z := 0x04.
Definition kPageExecute          : Z := 0x10.
Definition kPageExecuteRead      : Z := 0x20.
Definition kPageExecuteReadwrite : Z := 0x40.

Definition kDllProcessAttach : Z := 1.
Definition kDllThreadAttach  : Z := 2.
Definition kDllThreadDetach  : Z := 3.
Definition kDllProcessDetach : Z := 0.

Definition FastFailStackCookieCheckFailure : Z := 2.

(** [enum class RuntimeError]. *)
Inductive RuntimeError : Type :=
| SpaceArg | SpaceEnv | Heap | CrtInit | Banner | InternalErr | PseudoReloc.

Definition RuntimeError_code (e : RuntimeError) : Z :=
  match e with
  | SpaceArg => 8 | SpaceEnv => 9 | Heap => 28 | CrtInit => 27
  | Banner => 24 | InternalErr => 30 | PseudoReloc => 31
  end.

(** [using CookieType] and [DefaultSecurityCookie], per target. *)
Definition cookie_bits (a : Arch) : Z := if is64 a then 64 else 32.

Definition DefaultSecurityCookie (a : Arch) : Z :=
  if is64 a then 0x00002B992DDFA232 else 0xBB40E64E.

(** ** The operating system's memory-protection service

    [VirtualQuery] and [VirtualProtect] are imported from kernel32; the
    sources only call them.  The development is parametric in their
    behaviour: [VirtualQuery st addr] is [Some p] when the call fills the
    buffer and reports [Protect = p]; [VirtualProtect st addr size new] is
    [Some (old, st')] when the call returns TRUE, storing [old] through
    [lpflOldProtect], and [None] when it returns FALSE. *)

Class MemoryProtection : Type := {
  protState : Type;
  VirtualQuery : protState -> Z -> option Z;
  VirtualProtect : protState -> Z -> Z -> Z -> option (Z * protState)
}.

(** ** The linked image: what the linker and the user program contribute

    User code is opaque to the CRT.  Its callbacks are taken as functions
    of a state of their own, [U]: a callback returns, and it does not write
    the CRT's globals. *)

(** The four CRT section arrays ([.CRT$XI*], [.CRT$XC*], [.CRT$XP*],
    [.CRT$XT*]) as the slots found between the two sentinels. *)
Inductive SectionKind : Type := XI | XC | XP | XT.

Class Program : Type := {
  (** state owned by user code, as seen by the callbacks *)
  U : Type;
  (** slots in [[__xi_a, __xi_z)]: [_PIFV], null or a function returning int *)
  xi_slots : list (option (U -> U * Z));
  (** slots in [[__xc_a, __xc_z)], [[__xp_a, __xp_z)], [[__xt_a, __xt_z)] *)
  xc_slots : list (option (U -> U));
  xp_slots : list (option (U -> U));
  xt_slots : list (option (U -> U));
  (** the user's [DllMain (hinstDLL, fdwReason, lpvReserved)] *)
  DllMain : Z -> Z -> Z -> U -> U * Z;
  (** the weak [__cxa_finalize]: absent when libc++abi is not linked *)
  cxa_finalize : option (Z -> U -> U);
  (** [&__dso_handle] *)
  dso_handle : Z;
  (** [_crt_enable_thread_notifications] *)
  crt_enable_thread_notifications : Z;
  (** [GetModuleHandleW(nullptr)] *)
  image_base : Z;
  (** [__RUNTIME_PSEUDO_RELOC_LIST__], [__RUNTIME_PSEUDO_RELOC_LIST_END__] *)
  RUNTIME_PSEUDO_RELOC_LIST : Z;
  RUNTIME_PSEUDO_RELOC_LIST_END : Z
}.

(** ** Observable calls

    The calls a run makes, in order: the two start-up steps that are
    functions of the CRT itself, the imported functions, and the user's
    callbacks. *)

Inductive Callee : Type :=
| call_runPseudoRelocator
| call_securityInitCookie
| call_fpreset
| call_slot (k : SectionKind) (i : nat)   (** [( *fn)()] on slot [i] of array [k] *)
| call_cxa_finalize (dso : Z)
| call_DllMain (hinstDLL fdwReason lpvReserved : Z)
| call_DisableThreadLibraryCalls (hinstDLL : Z)
| call_OutputDebugStringA (msg : string).



Definition is_debug_output (c : Callee) : Prop :=
  match c with call_OutputDebugStringA _ => True | _ => False end.

(** How a process ends when the CRT kills it. *)
Inductive Exit : Type :=
| FastFail (code : Z)      (** [__fastfail(code)] *)
| AmsgExit (code : Z).     (** UCRT [_amsg_exit(code)] *)

(** ** Process state *)

(** [struct ModifiedSection]. *)
Record ModifiedSection : Type := mkModifiedSection {
  ms_address : Z;
  ms_size : Z;
  ms_oldProtect : Z
}.

Definition kMaxModifiedSections : Z := 64.

(** [INIT_ONCE]: [Ptr == nullptr] until the one-time callback completed. *)
Inductive INIT_ONCE : Type := INIT_ONCE_STATIC_INIT | INIT_ONCE_COMPLETE.

(** What the entropy queries of [__security_init_cookie] answer. *)
Record Entropy : Type := mkEntropy {
  e_systime : Z;     (** [GetSystemTimeAsFileTime], the 64-bit scalar *)
  e_threadId : Z;    (** [GetCurrentThreadId] *)
  e_processId : Z;   (** [GetCurrentProcessId] *)
  e_tickCount : Z;   (** [GetTickCount64] *)
  e_perfctr : Z;     (** [QueryPerformanceCounter], [QuadPart] *)
  e_stackAddr : Z    (** [&cookie] *)
}.

Section Model.

Context {OS : MemoryProtection} {P : Program}.
Variable arch : Arch.

(** The process state.  [mem] is the memory that holds the relocation
    table, the import slots and the relocation targets.  The CRT's own
    variables ([g_modifiedSections], [g_numModifiedSections], the two
    one-time guards, the cookie and its complement) are fields of their
    own, and so is the state of the user's callbacks: the record describes
    runs in which no relocation target names one of these variables.  What
    is proved about [mem] concerns the target of a relocation, or a path on
    which the code writes nothing at all. *)
Record World : Type := mkWorld {
  mem : Memory;
  prot : protState;
  g_modifiedSections : list ModifiedSection;
  g_numModifiedSections : Z;
  g_pseudoRelocInitOnce : INIT_ONCE;
  g_commonInitOnce : INIT_ONCE;
  __security_cookie : Z;
  __security_cookie_complement : Z;
  entropy : Entropy;
  user : U;
  calls : list Callee
}.

Definition set_mem (m : Memory) (w : World) : World :=
  mkWorld m (prot w) (g_modifiedSections w) (g_numModifiedSections w)
    (g_pseudoRelocInitOnce w) (g_commonInitOnce w) (__security_cookie w)
    (__security_cookie_complement w) (entropy w) (user w) (calls w).

Definition set_prot (p : protState) (w : World) : World :=
  mkWorld (mem w) p (g_modifiedSections w) (g_numModifiedSections w)
    (g_pseudoRelocInitOnce w) (g_commonInitOnce w) (__security_cookie w)
    (__security_cookie_complement w) (entropy w) (user w) (calls w).

Definition set_modifiedSections (l : list ModifiedSection) (n : Z) (w : World)
  : World :=
  mkWorld (mem w) (prot w) l n
    (g_pseudoRelocInitOnce w) (g_commonInitOnce w) (__security_cookie w)
    (__security_cookie_complement w) (entropy w) (user w) (calls w).

Definition set_pseudoRelocInitOnce (g : INIT_ONCE) (w : World) : World :=
  mkWorld (mem w) (prot w) (g_modifiedSections w) (g_numModifiedSections w)
    g (g_commonInitOnce w) (__security_cookie w)
    (__security_cookie_complement w) (entropy w) (user w) (calls w).

Definition set_commonInitOnce (g : INIT_ONCE) (w : World) : World :=
  mkWorld (mem w) (prot w) (g_modifiedSections w) (g_numModifiedSections w)
    (g_pseudoRelocInitOnce w) g (__security_cookie w)
    (__security_cookie_complement w) (entropy w) (user w) (calls w).

Definition set_cookie (c : Z) (w : World) : World :=
  mkWorld (mem w) (prot w) (g_modifiedSections w) (g_numModifiedSections w)
    (g_pseudoRelocInitOnce w) (g_commonInitOnce w) c
    (__security_cookie_complement w) (entropy w) (user w) (calls w).

Definition set_cookie_complement (c : Z) (w : World) : World :=
  mkWorld (mem w) (prot w) (g_modifiedSections w) (g_numModifiedSections w)
    (g_pseudoRelocInitOnce w) (g_commonInitOnce w) (__security_cookie w)
    c (entropy w) (user w) (calls w).

Definition set_user (u : U) (w : World) : World :=
  mkWorld (mem w) (prot w) (g_modifiedSections w) (g_numModifiedSections w)
    (g_pseudoRelocInitOnce w) (g_commonInitOnce w) (__security_cookie w)
    (__security_cookie_complement w) (entropy w) u (calls w).

Definition add_call (c : Callee) (w : World) : World :=
  mkWorld (mem w) (prot w) (g_modifiedSections w) (g_numModifiedSections w)
    (g_pseudoRelocInitOnce w) (g_commonInitOnce w) (__security_cookie w)
    (__security_cookie_complement w) (entropy w) (user w) (calls w ++ [c]).

(** ** The process monad *)

Inductive Outcome (A : Type) : Type :=
| Ret (a : A) (w : World)
| Terminated (e : Exit) (w : World).
Arguments Ret {A} a w.
Arguments Terminated {A} e w.

Definition M (A : Type) : Type := World -> Outcome A.

Definition ret {A} (a : A) : M A := fun w => Ret a w.

Definition bind {A B} (m : M A) (k : A -> M B) : M B :=
  fun w =>
    match m w with
    | Ret a w' => k a w'
    | Terminated e w' => Terminated e w'
    end.

Definition world_of {A} (o : Outcome A) : World :=
  match o with Ret _ w => w | Terminated _ w => w end.

(** The value a computation returned, if it returned. *)
Definition returned {A} (o : Outcome A) : option A :=
  match o with Ret a _ => Some a | Terminated _ _ => None end.

Notation "x <- c1 ;; c2" := (bind c1 (fun x => c2))
  (at level 61, c1 at next level, right associativity).
Notation "c1 ;; c2" := (bind c1 (fun _ => c2))
  (at level 61, right associativity).

Definition get {A} (f : World -> A) : M A := fun w => Ret (f w) w.
Definition modify (f : World -> World) : M unit := fun w => Ret tt (f w).
Definition terminate {A} (e : Exit) : M A := fun w => Terminated e w.
Definition record_call (c : Callee) : M unit := modify (add_call c).

(** [n] successive calls of [m]. *)
Fixpoint repeat_call (n : nat) (m : M unit) : M unit :=
  match n with
  | O => ret tt
  | S k => m ;; repeat_call k m
  end.

(** ** Fatal-error helpers ([crt_windows_internal.h]) *)

Definition OutputDebugStringA (msg : string) : M unit :=
  record_call (call_OutputDebugStringA msg).

Definition __fastfail {A} (code : Z) : M A := terminate (FastFail code).
Definition _amsg_exit {A} (code : Z) : M A := terminate (AmsgExit code).

Definition newline : string := String (Ascii.ascii_of_nat 10) EmptyString.

(** [crt::fatalError]. *)
Definition fatalError {A} (errCode : RuntimeError) : M A :=
  _amsg_exit (RuntimeError_code errCode).

(** [crt::fatalErrorEarly]. *)
Definition fatalErrorEarly {A} (msg : string) : M A :=
  OutputDebugStringA "FATAL: CRT initialization error: " ;;
  OutputDebugStringA msg ;;
  OutputDebugStringA newline ;;
  __fastfail FastFailStackCookieCheckFailure.

(** ** Pseudo-relocation processor ([crt_windows_pseudo_reloc.cpp]) *)

(** [struct PseudoRelocV1], [struct PseudoRelocV2], as laid out in memory;
    the field names carry a prefix because both structures have a
    [target]. *)
Record PseudoRelocV1 : Type := mkPseudoRelocV1 {
  v1_addend : Z;
  v1_target : Z
}.

Record PseudoRelocV2 : Type := mkPseudoRelocV2 {
  v2_sym : Z;
  v2_target : Z;
  v2_flags : Z
}.

Definition sizeof_PseudoRelocV1 : Z := 8.
Definition sizeof_PseudoRelocV2 : Z := 12.
Definition sizeof_PseudoRelocHeader : Z := 12.

Definition load_PseudoRelocV1 (m : Memory) (p : Z) : PseudoRelocV1 :=
  mkPseudoRelocV1 (load_u32 m p) (load_u32 m (p + 4)).

Definition load_PseudoRelocV2 (m : Memory) (p : Z) : PseudoRelocV2 :=
  mkPseudoRelocV2 (load_u32 m p) (load_u32 m (p + 4)) (load_u32 m (p + 8)).

Definition kRelocFlagSize8 : Z := 8.
Definition kRelocFlagSize16 : Z := 16.
Definition kRelocFlagSize32 : Z := 32.
Definition kRelocFlagSize64 : Z := 64.
Definition kRelocFlagSizeMask : Z := 0xFF.

(** [char* + DWORD], [char* - char*] and a pointer-sized load. *)
Definition ptr_add (p off : Z) : Z := uwrap (ptr_bits arch) (p + off).
Definition ptrdiff (p q : Z) : Z := swrap (ptr_bits arch) (p - q).
Definition load_ptr (m : Memory) (a : Z) : Z := load_le m a (ptr_bytes arch).

(** [getWritableProtection]. *)
Definition getWritableProtection (currentProtect : Z) : Z :=
  let isExecutable :=
    negb (Z.land currentProtect
            (Z.lor kPageExecute (Z.lor kPageExecuteRead kPageExecuteReadwrite))
          =? 0) in
  if isExecutable then kPageExecuteReadwrite else kPageReadwrite.

(** The entries [g_modifiedSections[0 .. g_numModifiedSections-1]]. *)
Definition tracked (w : World) : list ModifiedSection :=
  firstn (Z.to_nat (g_numModifiedSections w)) (g_modifiedSections w).

(** [a[i] = x] on the fixed-size array; the capacity test of [makeWritable]
    keeps [i] in range, outside it the model leaves the array alone. *)
Fixpoint array_set {A} (a : list A) (i : nat) (x : A) : list A :=
  match a, i with
  | [], _ => []
  | _ :: r, O => x :: r
  | y :: r, S j => y :: array_set r j x
  end.

(** The first loop of [makeWritable]: is the range inside a tracked entry? *)
Fixpoint alreadyTracked (addr size : Z) (l : list ModifiedSection) : bool :=
  match l with
  | [] => false
  | s :: r =>
      let start := ms_address s in
      let end_ := start + ms_size s in
      if (start <=? addr) && (addr + size <=? end_) then true
      else alreadyTracked addr size r
  end.

(** [makeWritable]. *)
Definition makeWritable (addr size : Z) : M bool :=
  l <- get tracked ;;
  if alreadyTracked addr size l then ret true
  else
    n <- get g_numModifiedSections ;;
    (if kMaxModifiedSections <=? n
     then fatalErrorEarly "Pseudo-reloc: too many modified sections (limit 64)"
     else ret tt) ;;
    st <- get prot ;;
    let newProtect :=
      match VirtualQuery st addr with
      | Some p => getWritableProtection p
      | None => kPageReadwrite
      end in
    match VirtualProtect st addr size newProtect with
    | None => ret false
    | Some (oldProtect, st') =>
        a <- get g_modifiedSections ;;
        modify (set_prot st') ;;
        modify (set_modifiedSections
                  (array_set a (Z.to_nat n)
                     (mkModifiedSection addr size oldProtect))
                  (n + 1)) ;;
        ret true
    end.

(** The loop of [restoreProtections]; the result of each [VirtualProtect]
    is ignored. *)
Fixpoint restoreLoop (l : list ModifiedSection) (st : protState) : protState :=
  match l with
  | [] => st
  | s :: r =>
      restoreLoop r
        match VirtualProtect st (ms_address s) (ms_size s) (ms_oldProtect s) with
        | Some (_, st') => st'
        | None => st
        end
  end.

(** [restoreProtections]. *)
Definition restoreProtections : M unit :=
  l <- get tracked ;;
  st <- get prot ;;
  modify (set_prot (restoreLoop l st)) ;;
  a <- get g_modifiedSections ;;
  modify (set_modifiedSections a 0).

(** [applyRelocV2]; the three fields of [*reloc] are read before anything
    is written, so the entry is passed by value. *)
Definition applyRelocV2 (base : Z) (reloc : PseudoRelocV2) : M bool :=
  m <- get mem ;;
  let symAddr := ptr_add base (v2_sym reloc) in
  let actualAddr := load_ptr m symAddr in
  let delta := ptrdiff actualAddr symAddr in
  let targetAddr := ptr_add base (v2_target reloc) in
  let size := Z.land (v2_flags reloc) kRelocFlagSizeMask in
  ok <- makeWritable targetAddr (size / 8) ;;
  if negb ok then ret false
  else
    m <- get mem ;;
    if size =? kRelocFlagSize8 then
      let val := load_i8 m targetAddr in
      let val := swrap 8 (val + swrap 8 delta) in
      modify (set_mem (store_le m targetAddr 1 val)) ;; ret true
    else if size =? kRelocFlagSize16 then
      let val := load_i16 m targetAddr in
      let val := swrap 16 (val + swrap 16 delta) in
      modify (set_mem (store_le m targetAddr 2 val)) ;; ret true
    else if size =? kRelocFlagSize32 then
      let val := load_i32 m targetAddr in
      let newVal := swrap 64 (val + delta) in
      (if (newVal <? INT32_MIN) || (INT32_MAX <? newVal)
       then fatalErrorEarly
              "Pseudo-reloc: 32-bit relocation overflow. Address delta exceeds INT32 range."
       else ret tt) ;;
      let val := swrap 32 newVal in
      modify (set_mem (store_le m targetAddr 4 val)) ;; ret true
    else if size =? kRelocFlagSize64 then
      let val := load_i64 m targetAddr in
      let val := swrap 64 (val + delta) in
      modify (set_mem (store_le m targetAddr 8 val)) ;; ret true
    else ret false.

(** The values [applyRelocV2] computes for its locals [targetAddr] and
    [delta] when it is entered with memory [m]. *)
Definition targetAddr_of (base : Z) (reloc : PseudoRelocV2) : Z :=
  ptr_add base (v2_target reloc).

Definition delta_of (m : Memory) (base : Z) (reloc : PseudoRelocV2) : Z :=
  let symAddr := ptr_add base (v2_sym reloc) in
  ptrdiff (load_ptr m symAddr) symAddr.

(** The [while (reloc < relocEnd)] loop over V2 entries.  Every iteration
    advances [reloc] by one entry, so [Z.to_nat (relocEnd - reloc)]
    iterations always suffice (see [relocLoopV2_unfold]). *)
Fixpoint relocLoopV2 (fuel : nat) (base reloc relocEnd : Z) : M unit :=
  match fuel with
  | O => ret tt
  | S fuel' =>
      if reloc <? relocEnd then
        m <- get mem ;;
        applyRelocV2 base (load_PseudoRelocV2 m reloc) ;;
        relocLoopV2 fuel' base (reloc + sizeof_PseudoRelocV2) relocEnd
      else ret tt
  end.

(** One iteration of the V1 loop: always a 32-bit [DWORD] addition. *)
Definition applyRelocV1 (base : Z) (reloc : PseudoRelocV1) : M unit :=
  let targetAddr := ptr_add base (v1_target reloc) in
  ok <- makeWritable targetAddr 4 ;;
  if ok then
    m <- get mem ;;
    let val := load_u32 m targetAddr in
    let val := uwrap 32 (val + v1_addend reloc) in
    modify (set_mem (store_le m targetAddr 4 val))
  else ret tt.

Fixpoint relocLoopV1 (fuel : nat) (base reloc relocEnd : Z) : M unit :=
  match fuel with
  | O => ret tt
  | S fuel' =>
      if reloc <? relocEnd then
        m <- get mem ;;
        applyRelocV1 base (load_PseudoRelocV1 m reloc) ;;
        relocLoopV1 fuel' base (reloc + sizeof_PseudoRelocV1) relocEnd
      else ret tt
  end.

(** [doPseudoReloc]. *)
Definition doPseudoReloc (start end_ base : Z) : M unit :=
  if end_ <=? start then ret tt
  else
    m <- get mem ;;
    let magic1 := load_u32 m start in
    let magic2 := load_u32 m (start + 4) in
    if (magic1 =? 0) && (magic2 =? 0) then
      let version := load_u32 m (start + 8) in
      if negb (version =? 1) then ret tt
      else
        let reloc := start + sizeof_PseudoRelocHeader in
        relocLoopV2 (Z.to_nat (end_ - reloc)) base reloc end_ ;;
        restoreProtections
    else
      relocLoopV1 (Z.to_nat (end_ - start)) base start end_ ;;
      restoreProtections.

(** ** One-time initialization

    [InitOnceExecuteOnce] is imported from kernel32.  This is its behaviour
    for one caller at a time: the callback runs unless the guard already
    completed; a callback returning TRUE completes the guard, one returning
    FALSE leaves it as it was. *)
Definition InitOnceExecuteOnce
    (InitOnce : World -> INIT_ONCE) (set_InitOnce : INIT_ONCE -> World -> World)
    (InitFn : M bool) : M bool :=
  g <- get InitOnce ;;
  match g with
  | INIT_ONCE_COMPLETE => ret true
  | INIT_ONCE_STATIC_INIT =>
      ok <- InitFn ;;
      if ok then modify (set_InitOnce INIT_ONCE_COMPLETE) ;; ret true
      else ret false
  end.

(** [pseudoRelocCallback], [_pei386_runtime_relocator],
    [crt::runPseudoRelocator]. *)
Definition pseudoRelocCallback : M bool :=
  doPseudoReloc RUNTIME_PSEUDO_RELOC_LIST RUNTIME_PSEUDO_RELOC_LIST_END
    image_base ;;
  ret true.

Definition _pei386_runtime_relocator : M unit :=
  InitOnceExecuteOnce g_pseudoRelocInitOnce set_pseudoRelocInitOnce
    pseudoRelocCallback ;;
  ret tt.

Definition runPseudoRelocator : M unit :=
  record_call call_runPseudoRelocator ;;
  _pei386_runtime_relocator.

(** ** Security cookie ([crt_windows_security.cpp]) *)

(** [~x] on [CookieType]. *)
Definition cookie_not (x : Z) : Z := uwrap (cookie_bits arch) (Z.lnot x).

(** [__report_gsfailure]. *)
Definition __report_gsfailure {A} : M A :=
  __fastfail FastFailStackCookieCheckFailure.

(** [__security_check_cookie]. *)
Definition __security_check_cookie (cookie : Z) : M unit :=
  expected <- get __security_cookie ;;
  if negb (cookie =? expected) then __report_gsfailure else ret tt.

(** The entropy-gathering part of [__security_init_cookie], up to and
    including the 64-bit mask.  The two halves of the [crt_filetime_t] and
    [LARGE_INTEGER] unions are the low and high 32 bits of their scalar. *)
Definition gather_entropy (e : Entropy) : Z :=
  let tid := uwrap 32 (e_threadId e) in
  let pid := uwrap 32 (e_processId e) in
  let tickCount := uwrap 64 (e_tickCount e) in
  let LowPart := uwrap 32 (e_perfctr e) in
  if is64 arch then
    let cookie := uwrap 64 (e_systime e) in
    let cookie := Z.lxor cookie tid in
    let cookie := Z.lxor cookie pid in
    let cookie := Z.lxor cookie (uwrap 64 (Z.shiftl tickCount 56)) in
    let cookie := Z.lxor cookie tickCount in
    let QuadPart := uwrap 64 (e_perfctr e) in
    let cookie :=
      Z.lxor cookie (Z.lxor (uwrap 64 (Z.shiftl LowPart 32)) QuadPart) in
    let cookie := Z.lxor cookie (uwrap 64 (e_stackAddr e)) in
    Z.land cookie 0x0000FFFFFFFFFFFF
  else
    let dwLowDateTime := uwrap 32 (e_systime e) in
    let dwHighDateTime := uwrap 32 (e_systime e / 2 ^ 32) in
    let cookie := Z.lxor dwLowDateTime dwHighDateTime in
    let cookie := Z.lxor cookie tid in
    let cookie := Z.lxor cookie pid in
    let cookie := Z.lxor cookie (uwrap 32 tickCount) in
    let cookie := Z.lxor cookie LowPart in
    let HighPart := uwrap 32 (e_perfctr e / 2 ^ 32) in
    let cookie := Z.lxor cookie HighPart in
    Z.lxor cookie (uwrap 32 (e_stackAddr e)).

(** The final "ensure cookie is valid" step of [__security_init_cookie]. *)
Definition validate_cookie (cookie : Z) : Z :=
  if cookie =? DefaultSecurityCookie arch then DefaultSecurityCookie arch + 1
  else if is64 arch then
    if cookie =? 0 then DefaultSecurityCookie arch + 1 else cookie
  else if Z.land cookie 0xFFFF0000 =? 0 then
    Z.lor cookie (uwrap 32 (Z.shiftl (Z.lor cookie 0x4711) 16))
  else cookie.

(** The "already initialized" test that opens [__security_init_cookie]. *)
Definition cookie_already_initialized (c : Z) : bool :=
  negb (c =? DefaultSecurityCookie arch)
  && (if isX86 arch then negb (Z.land c 0xFFFF0000 =? 0) else true).

(** [__security_init_cookie]. *)
Definition __security_init_cookie : M unit :=
  c <- get __security_cookie ;;
  if cookie_already_initialized c then
    modify (set_cookie_complement (cookie_not c))
  else
    e <- get entropy ;;
    let cookie := validate_cookie (gather_entropy e) in
    modify (set_cookie cookie) ;;
    modify (set_cookie_complement (cookie_not cookie)).

(** [crt::securityInitCookie]. *)
Definition securityInitCookie : M unit :=
  record_call call_securityInitCookie ;;
  __security_init_cookie.

(** ** CRT initialization ([crt_windows_init.cpp]) *)

(** [( *fn)()] for a [_PVFV] and for a [_PIFV]. *)
Definition call_PVFV (k : SectionKind) (i : nat) (fn : U -> U) : M unit :=
  record_call (call_slot k i) ;;
  modify (fun w => set_user (fn (user w)) w).

Definition call_PIFV (k : SectionKind) (i : nat) (fn : U -> U * Z) : M Z :=
  record_call (call_slot k i) ;;
  u <- get user ;;
  modify (set_user (fst (fn u))) ;;
  ret (snd (fn u)).

(** [crt::initterm] on the slots of array [k] from index [i] on. *)
Fixpoint initterm (k : SectionKind) (i : nat) (slots : list (option (U -> U)))
  : M unit :=
  match slots with
  | [] => ret tt
  | fn :: rest =>
      match fn with
      | Some f => call_PVFV k i f
      | None => ret tt
      end ;;
      initterm k (S i) rest
  end.

(** [crt::initterm_e]. *)
Fixpoint initterm_e (k : SectionKind) (i : nat)
    (slots : list (option (U -> U * Z))) : M Z :=
  match slots with
  | [] => ret 0
  | fn :: rest =>
      match fn with
      | Some f =>
          r <- call_PIFV k i f ;;
          if negb (r =? 0) then ret r else initterm_e k (S i) rest
      | None => initterm_e k (S i) rest
      end
  end.

(** UCRT [_fpreset]. *)
Definition _fpreset : M unit := record_call call_fpreset.

(** [commonInitCallback]. *)
Definition commonInitCallback : M bool :=
  runPseudoRelocator ;;
  securityInitCookie ;;
  _fpreset ;;
  r <- initterm_e XI 0 xi_slots ;;
  (if negb (r =? 0) then fatalError CrtInit else ret tt) ;;
  initterm XC 0 xc_slots ;;
  ret true.

(** [crt::commonInit]. *)
Definition commonInit : M unit :=
  InitOnceExecuteOnce g_commonInitOnce set_commonInitOnce commonInitCallback ;;
  ret tt.

(** [crt::runPreterminators], [crt::runTerminators]. *)
Definition runPreterminators : M unit := initterm XP 0 xp_slots.
Definition runTerminators : M unit := initterm XT 0 xt_slots.

(** [CRT_CXA_FINALIZE_CALL(dso)]: the weak symbol is tested before the call. *)
Definition CRT_CXA_FINALIZE_CALL (dso : Z) : M unit :=
  match cxa_finalize with
  | Some f =>
      record_call (call_cxa_finalize dso) ;;
      modify (fun w => set_user (f dso (user w)) w)
  | None => ret tt
  end.

(** ** DLL entry point ([crt_windows.cpp]) *)

Definition call_user_DllMain (hinstDLL fdwReason lpvReserved : Z) : M Z :=
  record_call (call_DllMain hinstDLL fdwReason lpvReserved) ;;
  u <- get user ;;
  modify (set_user (fst (DllMain hinstDLL fdwReason lpvReserved u))) ;;
  ret (snd (DllMain hinstDLL fdwReason lpvReserved u)).

Definition DisableThreadLibraryCalls (hinstDLL : Z) : M unit :=
  record_call (call_DisableThreadLibraryCalls hinstDLL).

(** [_DllMainCRTStartup]; [nullptr] is address 0. *)
Definition _DllMainCRTStartup (hinstDLL fdwReason lpvReserved : Z) : M Z :=
  if fdwReason =? kDllProcessAttach then
    commonInit ;;
    result <- call_user_DllMain hinstDLL fdwReason lpvReserved ;;
    (if negb (result =? 0) && (crt_enable_thread_notifications =? 0)
     then DisableThreadLibraryCalls hinstDLL
     else ret tt) ;;
    ret result
  else
    (if fdwReason =? kDllProcessDetach then
       if lpvReserved =? 0 then
         CRT_CXA_FINALIZE_CALL dso_handle ;;
         runPreterminators ;;
         runTerminators
       else ret tt
     else ret tt) ;;
    call_user_DllMain hinstDLL fdwReason lpvReserved.

(** ** Vocabulary for the call log *)

(** The state [w] with the user state and the call log replaced. *)
Definition with_user_calls (u : U) (cs : list Callee) (w : World) : World :=
  mkWorld (mem w) (prot w) (g_modifiedSections w) (g_numModifiedSections w)
    (g_pseudoRelocInitOnce w) (g_commonInitOnce w) (__security_cookie w)
    (__security_cookie_complement w) (entropy w) u cs.

(** The calls made when every non-null slot of [slots] (array [k], first
    index [i]) is invoked in order. *)
Fixpoint slot_calls {F : Type} (k : SectionKind) (i : nat)
    (slots : list (option F)) : list Callee :=
  match slots with
  | [] => []
  | Some _ :: rest => call_slot k i :: slot_calls k (S i) rest
  | None :: rest => slot_calls k (S i) rest
  end.

(** User state after the non-null [_PVFV] slots ran in order. *)
Fixpoint pvfv_state (slots : list (option (U -> U))) (u : U) : U :=
  match slots with
  | [] => u
  | Some f :: rest => pvfv_state rest (f u)
  | None :: rest => pvfv_state rest u
  end.

(** User state after the non-null [_PIFV] slots ran in order. *)
Fixpoint pifv_state (slots : list (option (U -> U * Z))) (u : U) : U :=
  match slots with
  | [] => u
  | Some f :: rest => pifv_state rest (fst (f u))
  | None :: rest => pifv_state rest u
  end.

(** Every non-null [_PIFV] slot, run in order from [u], returns 0. *)
Fixpoint pifv_all_succeed (slots : list (option (U -> U * Z))) (u : U)
  : Prop :=
  match slots with
  | [] => True
  | Some f :: rest => snd (f u) = 0 /\ pifv_all_succeed rest (fst (f u))
  | None :: rest => pifv_all_succeed rest u
  end.

(** [w'] differs from [w] in the call log by debug output only, and not
    in the user state. *)
Definition quiet (w w' : World) : Prop :=
  user w' = user w
  /\ exists cs, calls w' = calls w ++ cs /\ Forall is_debug_output cs.

Definition quietM {A : Type} (m : M A) : Prop :=
  forall w, quiet w (world_of (m w)).

(** What [_DllMainCRTStartup] does on an explicit unload before it calls
    the user's [DllMain]: the calls it makes and the user state it leaves. *)
Definition module_cleanup_calls : list Callee :=
  match cxa_finalize with
  | Some _ => [call_cxa_finalize dso_handle]
  | None => []
  end
  ++ slot_calls XP 0 xp_slots ++ slot_calls XT 0 xt_slots.

Definition module_cleanup_state (u : U) : U :=
  pvfv_state xt_slots
    (pvfv_state xp_slots
       match cxa_finalize with
       | Some f => f dso_handle u
       | None => u
       end).

(** ** The process at load time: the static initializers of the globals *)

Definition initial_world (m : Memory) (st : protState) (e : Entropy) (u : U)
  : World :=
  mkWorld m st (repeat (mkModifiedSection 0 0 0) 64) 0
    INIT_ONCE_STATIC_INIT INIT_ONCE_STATIC_INIT
    (DefaultSecurityCookie arch) (cookie_not (DefaultSecurityCookie arch))
    e u [].

(** ** Further entry points of [crt_windows_init.cpp] *)

(** [_CRT_INIT]; TRUE is 1 and FALSE is 0. *)
Definition _CRT_INIT (hinstDLL fdwReason lpvReserved : Z) : M Z :=
  if fdwReason =? kDllProcessAttach then
    securityInitCookie ;;
    r <- initterm_e XI 0 xi_slots ;;
    if negb (r =? 0) then ret 0
    else
      initterm XC 0 xc_slots ;;
      ret 1
  else
    (if fdwReason =? kDllProcessDetach then
       if lpvReserved =? 0 then
         CRT_CXA_FINALIZE_CALL dso_handle ;;
         runPreterminators ;;
         runTerminators
       else ret tt
     else ret tt) ;;
    ret 1.

(** [_cexit]: the finalization hook is called with [nullptr]. *)
Definition _cexit : M unit :=
  CRT_CXA_FINALIZE_CALL 0 ;;
  runPreterminators ;;
  runTerminators.

(** [_c_exit]: an empty body. *)
Definition _c_exit : M unit := ret tt.

(** ** The shape of the tracking table

    [g_modifiedSections] is an array of [kMaxModifiedSections] records and
    [g_numModifiedSections] counts the ones in use. *)
Definition tracking_wf (w : World) : Prop :=
  length (g_modifiedSections w) = Z.to_nat kMaxModifiedSections
  /\ 0 <= g_numModifiedSections w <= kMaxModifiedSections.

(** [m] takes every state to one related to it by [R], however it ends. *)
Definition relM (R : World -> World -> Prop) {A : Type} (m : M A) : Prop :=
  forall w, R w (world_of (m w)).

(** ** The fatal exits of the pseudo-relocation processor *)

(** The three debug strings [fatalErrorEarly msg] writes. *)
Definition fatal_log (msg : string) : list Callee :=
  [ call_OutputDebugStringA "FATAL: CRT initialization error: ";
    call_OutputDebugStringA msg;
    call_OutputDebugStringA newline ].

(** The messages of the two [fatalErrorEarly] calls of
    [crt_windows_pseudo_reloc.cpp]: in [makeWritable] and in
    [applyRelocV2]. *)
Definition too_many_sections_msg : string :=
  "Pseudo-reloc: too many modified sections (limit 64)".
Definition reloc_overflow_msg : string :=
  "Pseudo-reloc: 32-bit relocation overflow. Address delta exceeds INT32 range.".

(** An outcome reached from [w] that either returned without a call, or
    ended by [__fastfail] after the debug strings of one of the two
    messages. *)
Definition pass_outcome {A : Type} (w : World) (o : Outcome A) : Prop :=
  match o with
  | Ret _ w' => calls w' = calls w
  | Terminated e w' =>
      e = FastFail FastFailStackCookieCheckFailure
      /\ exists msg,
           (msg = too_many_sections_msg \/ msg = reloc_overflow_msg)
           /\ calls w' = calls w ++ fatal_log msg
  end.

Definition passM {A : Type} (m : M A) : Prop :=
  forall w, pass_outcome w (m w).

End Model.

Arguments Ret {OS P A} a w.
Arguments Terminated {OS P A} e w.

(** ** TLS directory ([crt_windows_tls.cpp]) *)

(** The two integer types the structure is declared with. *)
Inductive FieldType : Type := unsigned_int64 | DWORD.

Definition FieldType_bits (t : FieldType) : Z :=
  match t with unsigned_int64 => 64 | DWORD => 32 end.

(** [struct CRT_IMAGE_TLS_DIRECTORY]: the declared fields, in order, for
    the [#if] branch the target selects. *)
Definition CRT_IMAGE_TLS_DIRECTORY (a : Arch) : list (string * FieldType) :=
  if is64 a then
    [ ("StartAddressOfRawData"%string, unsigned_int64);
      ("EndAddressOfRawData"%string, unsigned_int64);
      ("AddressOfIndex"%string, unsigned_int64);
      ("AddressOfCallBacks"%string, unsigned_int64);
      ("SizeOfZeroFill"%string, DWORD);
      ("Characteristics"%string, DWORD) ]
  else
    [ ("StartAddressOfRawData"%string, DWORD);
      ("EndAddressOfRawData"%string, DWORD);
      ("AddressOfIndex"%string, DWORD);
      ("AddressOfCallBacks"%string, DWORD);
      ("SizeOfZeroFill"%string, DWORD);
      ("Characteristics"%string, DWORD) ].

(** Addresses of the symbols the initializer of [_tls_used] refers to. *)
Record TlsSymbols : Type := mkTlsSymbols {
  addr_tls_start : Z;    (** [&_tls_start] *)
  addr_tls_end : Z;      (** [&_tls_end] *)
  addr_tls_index : Z;    (** [&_tls_index] *)
  addr_xl_a : Z          (** [&__xl_a] *)
}.

(** The initializer of [_tls_used], one value per declared field. *)
Definition _tls_used (s : TlsSymbols) : list Z :=
  [ addr_tls_start s; addr_tls_end s; addr_tls_index s; addr_xl_a s; 0; 0 ].

(** ** The command line handed to [WinMain] ([crt_windows_cmdline.cpp])

    [getWinMainCmdLineImpl<CharT>] walks the NUL-terminated string that
    [GetCommandLine] returns and returns a pointer into it.  The string is
    the list of its characters before the NUL, and the pointer returned is
    the rest of the list from that position.  This is the [char]
    instantiation; the [wchar_t] one differs in the character type only. *)

Definition cmd_Space : Ascii.ascii := Ascii.ascii_of_nat 32.
Definition cmd_Tab : Ascii.ascii := Ascii.ascii_of_nat 9.
Definition cmd_Quote : Ascii.ascii := Ascii.ascii_of_nat 34.

(** [*cmdline == Traits::Space || *cmdline == Traits::Tab]. *)
Definition is_blank (c : Ascii.ascii) : bool :=
  Ascii.eqb c cmd_Space || Ascii.eqb c cmd_Tab.

(** The first loop: skip the program name. *)
Fixpoint skipProgramName (cmdline : list Ascii.ascii) (inQuotes : bool)
  : list Ascii.ascii :=
  match cmdline with
  | [] => []
  | c :: rest =>
      if Ascii.eqb c cmd_Quote then skipProgramName rest (negb inQuotes)
      else if is_blank c && negb inQuotes then cmdline
      else skipProgramName rest inQuotes
  end.

(** The second loop: skip the blanks that follow. *)
Fixpoint skipBlanks (cmdline : list Ascii.ascii) : list Ascii.ascii :=
  match cmdline with
  | [] => []
  | c :: rest => if is_blank c then skipBlanks rest else cmdline
  end.

(** [getWinMainCmdLineImpl], given what [GetCommandLine] returned. *)
Definition getWinMainCmdLineImpl (cmdline : list Ascii.ascii)
  : list Ascii.ascii :=
  skipBlanks (skipProgramName cmdline false).

(** Vocabulary for command lines: a character that is neither a quote nor
    a blank, and a character that is not a quote. *)
Definition plain_char (c : Ascii.ascii) : bool :=
  negb (Ascii.eqb c cmd_Quote) && negb (is_blank c).

Definition not_quote (c : Ascii.ascii) : bool := negb (Ascii.eqb c cmd_Quote).

(* ===================================================================== *)
(** * Part II: a concrete operating system and concrete images           *)
(* ===================================================================== *)

(** ** Page-granular memory protection

    The documented behaviour of the two kernel32 services: protection is
    kept per page; [VirtualProtect] acts on every page that contains a
    byte of the range and reports the previous protection of the first of
    them.  It fails on an empty range, when one of the pages is not
    committed, and, in a process that prohibits dynamic code, when asked
    to make pages both writable and executable. *)

Definition page_size : Z := 4096.

Record PagedState : Type := mkPagedState {
  (** protection of each committed page, by page number *)
  pages : Z -> option Z;
  (** the process mitigation policy that prohibits dynamic code *)
  dynamic_code_prohibited : bool
}.

Definition page_of (addr : Z) : Z := addr / page_size.

Fixpoint pages_from (first : Z) (n : nat) : list Z :=
  match n with
  | O => []
  | S k => first :: pages_from (first + 1) k
  end.

Definition range_pages (addr size : Z) : list Z :=
  pages_from (page_of addr)
    (Z.to_nat (page_of (addr + size - 1) - page_of addr + 1)).

Definition committed (st : PagedState) (p : Z) : bool :=
  match pages st p with Some _ => true | None => false end.

Definition protect_pages (st : PagedState) (ps : list Z) (v : Z)
  : PagedState :=
  mkPagedState
    (fun p => if existsb (Z.eqb p) ps then Some v else pages st p)
    (dynamic_code_prohibited st).

Definition pt_VirtualQuery (st : PagedState) (addr : Z) : option Z :=
  pages st (page_of addr).

Definition pt_VirtualProtect (st : PagedState) (addr size newProtect : Z)
  : option (Z * PagedState) :=
  if size <=? 0 then None
  else if dynamic_code_prohibited st && (newProtect =? kPageExecuteReadwrite)
  then None
  else if forallb (committed st) (range_pages addr size) then
    match pages st (page_of addr) with
    | Some old => Some (old, protect_pages st (range_pages addr size) newProtect)
    | None => None
    end
  else None.

Definition PagedOS : MemoryProtection :=
  Build_MemoryProtection PagedState pt_VirtualQuery pt_VirtualProtect.

(** ** Images used in the examples *)

(** Marker callbacks append their name to a log kept in the user state. *)
Definition mark (name : string) (u : list string) : list string :=
  u ++ [name].

Definition demo_DllMain (h r l : Z) (u : list string) : list string * Z :=
  (mark "DllMain" u, 1).

(** An image whose C initializers all succeed; no relocation table. *)
Definition demo_program : Program :=
  Build_Program (list string)
    [ None; Some (fun u => (mark "xi1" u, 0)); None;
      Some (fun u => (mark "xi3" u, 0)) ]
    [ None; Some (mark "xc1"); Some (mark "xc2") ]
    [ None; Some (mark "xp1") ]
    [ None; Some (mark "xt1") ]
    demo_DllMain
    (Some (fun dso u => mark "cxa_finalize" u))
    0x5000 0 0x10000 0x3000 0x3000.

(** The same image with a C initializer that reports failure. *)
Definition failing_program : Program :=
  Build_Program (list string)
    [ None; Some (fun u => (mark "xi1" u, 0));
      Some (fun u => (mark "xi2" u, 7));
      Some (fun u => (mark "xi3" u, 0)) ]
    [ None; Some (mark "xc1"); Some (mark "xc2") ]
    [ None; Some (mark "xp1") ]
    [ None; Some (mark "xt1") ]
    demo_DllMain
    (Some (fun dso u => mark "cxa_finalize" u))
    0x5000 0 0x10000 0x3000 0x3000.

Definition zero_memory : Memory := fun _ => 0.
Definition no_entropy : Entropy := mkEntropy 0 0 0 0 0 0.

(** An image at [0x10000]: page [0x10] is code (execute-read), page [0x11]
    is read-only data, page [0x30] holds the relocation table. *)
Definition image_pages (p : Z) : option Z :=
  if p =? 0x10 then Some kPageExecuteRead
  else if p =? 0x11 then Some kPageReadonly
  else if p =? 0x30 then Some kPageReadonly
  else None.

(** The image in an ordinary process, and in one that prohibits dynamic
    code. *)
Definition plain_process : PagedState := mkPagedState image_pages false.
Definition hardened_process : PagedState := mkPagedState image_pages true.

(** *** A 32-bit V2 entry that patches code, in a hardened process

    The import slot at [0x10100] holds [0x10105], so [delta = 5]; the
    target at [0x10200], in the code page, holds 7. *)
Definition skipped_memory : Memory :=
  store_le (store_le zero_memory 0x10100 8 0x10105) 0x10200 4 7.

Definition skipped_reloc : PseudoRelocV2 := mkPseudoRelocV2 0x100 0x200 32.

Definition skipped_world : @World PagedOS demo_program :=
  @initial_world PagedOS demo_program X64 skipped_memory hardened_process
    no_entropy [].

(** *** An overflowing 32-bit V2 entry that patches code, followed by an
        entry that patches data, in a hardened process

    Table at [0x30000 .. 0x30024): header [0, 0, 1], entry
    [(sym 0x100, target 0x200, 32)], entry [(sym 0x108, target 0x1000, 32)].
    The slot at [0x10100] holds [0x10100 + 2^40]: the first delta does not
    fit 32 bits.  The slot at [0x10108] holds [0x1010B]: the second delta
    is 3.  The first target holds 7, the second 10. *)
Definition overflow_memory : Memory :=
  let m := zero_memory in
  let m := store_le m 0x30000 4 0 in
  let m := store_le m 0x30004 4 0 in
  let m := store_le m 0x30008 4 1 in
  let m := store_le m 0x3000C 4 0x100 in
  let m := store_le m 0x30010 4 0x200 in
  let m := store_le m 0x30014 4 32 in
  let m := store_le m 0x30018 4 0x108 in
  let m := store_le m 0x3001C 4 0x1000 in
  let m := store_le m 0x30020 4 32 in
  let m := store_le m 0x10100 8 (0x10100 + 2 ^ 40) in
  let m := store_le m 0x10108 8 0x1010B in
  let m := store_le m 0x10200 4 7 in
  store_le m 0x11000 4 10.

Definition overflow_world : @World PagedOS demo_program :=
  @initial_world PagedOS demo_program X64 overflow_memory hardened_process
    no_entropy [].

(** *** Entries of that table read against the data page

    [patched_reloc] is the second entry of the table above.  [fatal_reloc]
    pairs the import slot of the first entry with the target of the
    second. *)
Definition patched_reloc : PseudoRelocV2 := mkPseudoRelocV2 0x108 0x1000 32.
Definition fatal_reloc : PseudoRelocV2 := mkPseudoRelocV2 0x100 0x1000 32.

(** [overflow_world] after [makeWritable] accepted the range at [0x11000]. *)
Definition writable_world : @World PagedOS demo_program :=
  world_of (makeWritable 0x11000 4 overflow_world).

(** *** Two V1 entries whose targets share one read-only page

    Table at [0x30000 .. 0x30010): entries [(addend 1, target 0x1000)] and
    [(addend 1, target 0x1004)]; both targets are in the data page. *)
Definition shared_page_memory : Memory :=
  let m := zero_memory in
  let m := store_le m 0x30000 4 1 in
  let m := store_le m 0x30004 4 0x1000 in
  let m := store_le m 0x30008 4 1 in
  store_le m 0x3000C 4 0x1004.

Definition shared_page_world : @World PagedOS demo_program :=
  @initial_world PagedOS demo_program X64 shared_page_memory plain_process
    no_entropy [].

(** *** A process about to start the demo image *)
Definition demo_world : @World PagedOS demo_program :=
  @initial_world PagedOS demo_program X64 zero_memory plain_process
    no_entropy [].

(** *** A process about to start the image with the failing initializer *)
Definition failing_world : @World PagedOS failing_program :=
  @initial_world PagedOS failing_program X64 zero_memory plain_process
    no_entropy [].

(** *** An x86 process whose loader seeded a cookie with an empty high word *)
Definition seeded_x86_world : @World PagedOS demo_program :=
  set_cookie 1
    (@initial_world PagedOS demo_program X86 zero_memory plain_process
       no_entropy []).

(** *** A V2 table whose header names version 2

    Table at [0x30000 .. 0x30018): header [0, 0, 2] and one entry. *)
Definition unknown_version_memory : Memory :=
  let m := zero_memory in
  let m := store_le m 0x30008 4 2 in
  let m := store_le m 0x3000C 4 0x108 in
  let m := store_le m 0x30010 4 0x1000 in
  let m := store_le m 0x30014 4 32 in
  let m := store_le m 0x10108 8 0x1010B in
  store_le m 0x11000 4 10.

Definition unknown_version_world : @World PagedOS demo_program :=
  @initial_world PagedOS demo_program X64 unknown_version_memory plain_process
    no_entropy [].

(** *** A pass that has made 64 separate ranges of the data page writable *)
Definition full_tracking_world : @World PagedOS demo_program :=
  fold_left
    (fun w i => world_of (makeWritable (0x11000 + 8 * Z.of_nat i) 4 w))
    (seq 0 64) overflow_world.

(** *** Further entries read against the memory of [overflow_world]

    [first_v1_reloc] is the first entry of the V1 table of
    [shared_page_world].  [byte_reloc] patches one byte of the data page
    with the import slot whose delta is [2^40].  [odd_size_reloc] has size
    class 24. *)
Definition first_v1_reloc : PseudoRelocV1 := mkPseudoRelocV1 1 0x1000.
Definition byte_reloc : PseudoRelocV2 := mkPseudoRelocV2 0x100 0x1000 8.
Definition odd_size_reloc : PseudoRelocV2 := mkPseudoRelocV2 0x108 0x1000 24.

(** *** An image with a one-entry V2 table

    Table at [0x30000 .. 0x30018): header [0, 0, 1], entry
    [(sym 0x108, target 0x1000, 32)]; the slot at [0x10108] holds
    [0x1010B] (delta 3) and the target holds 10. *)
Definition patch_program : Program :=
  Build_Program (list string)
    [ None; Some (fun u => (mark "xi1" u, 0)) ]
    [ Some (mark "xc0") ]
    [] []
    demo_DllMain
    None
    0x5000 0 0x10000 0x30000 0x30018.

Definition patch_memory : Memory :=
  let m := zero_memory in
  let m := store_le m 0x30008 4 1 in
  let m := store_le m 0x3000C 4 0x108 in
  let m := store_le m 0x30010 4 0x1000 in
  let m := store_le m 0x30014 4 32 in
  let m := store_le m 0x10108 8 0x1010B in
  store_le m 0x11000 4 10.

Definition patch_world : @World PagedOS patch_program :=
  @initial_world PagedOS patch_program X64 patch_memory plain_process
    no_entropy [].

(** *** Command lines *)
Definition plain_name : list Ascii.ascii := list_ascii_of_string "app.exe".
Definition spaced_name : list Ascii.ascii :=
  list_ascii_of_string "C:\Program Files\My App\app.exe".
Definition two_blanks : list Ascii.ascii := [cmd_Space; cmd_Tab].
Definition demo_args : list Ascii.ascii := list_ascii_of_string "-v  a.txt".

(* ===================================================================== *)
(** * Part III: properties                                                *)
(* ===================================================================== *)

(** ** Machine arithmetic *)

Lemma pow2_split (w : Z) : 0 < w -> 2 ^ w = 2 * 2 ^ (w - 1).
Proof.
  intros Hw. replace w with (1 + (w - 1)) at 1 by lia.
  rewrite Z.pow_add_r by lia. reflexivity.
Qed.

Lemma swrap_id (w z : Z) :
  0 < w -> - 2 ^ (w - 1) <= z < 2 ^ (w - 1) -> swrap w z = z.
Proof.
  intros Hw Hz. unfold swrap. rewrite (pow2_split w Hw).
  rewrite Z.mod_small; lia.
Qed.

Lemma swrap_range (w z : Z) :
  0 < w -> - 2 ^ (w - 1) <= swrap w z < 2 ^ (w - 1).
Proof.
  intros Hw. unfold swrap.
  assert (Hp : 0 < 2 ^ (w - 1)) by (apply Z.pow_pos_nonneg; lia).
  pose proof (Z.mod_pos_bound (z + 2 ^ (w - 1)) (2 ^ w)) as Hb.
  rewrite (pow2_split w Hw) in *. lia.
Qed.

(** Adding a 64-bit delta to a 32-bit value in 64-bit arithmetic: the
    wrapped sum fits 32 bits exactly when the exact sum does. *)
Lemma swrap64_fits_int32 (val delta : Z) :
  - 2 ^ 31 <= val < 2 ^ 31 ->
  - 2 ^ 63 <= delta < 2 ^ 63 ->
  (INT32_MIN <= swrap 64 (val + delta) <= INT32_MAX
   <-> INT32_MIN <= val + delta <= INT32_MAX).
Proof.
  intros Hv Hd. unfold INT32_MIN, INT32_MAX.
  destruct (Z_lt_dec (val + delta) (- 2 ^ 63)) as [Hlo | Hlo].
  - replace (swrap 64 (val + delta)) with (val + delta + 2 ^ 64).
    + lia.
    + unfold swrap.
      replace (val + delta + 2 ^ (64 - 1))
        with ((val + delta + 2 ^ 64 + 2 ^ 63) + (-1) * 2 ^ 64) by lia.
      rewrite Z_mod_plus_full. rewrite Z.mod_small; lia.
  - destruct (Z_lt_dec (val + delta) (2 ^ 63)) as [Hhi | Hhi].
    + rewrite swrap_id; simpl; lia.
    + replace (swrap 64 (val + delta)) with (val + delta - 2 ^ 64).
      * lia.
      * unfold swrap.
        replace (val + delta + 2 ^ (64 - 1))
          with ((val + delta - 2 ^ 64 + 2 ^ 63) + 1 * 2 ^ 64) by lia.
        rewrite Z_mod_plus_full. rewrite Z.mod_small; lia.
Qed.

(** ** Memory: a store followed by a load *)

Lemma store_le_inside (m : Memory) (a : Z) (n : nat) (v x : Z) :
  a <= x < a + Z.of_nat n ->
  store_le m a n v x = (v / 256 ^ (x - a)) mod 256.
Proof.
  intros H. unfold store_le.
  replace (a <=? x) with true by (symmetry; apply Z.leb_le; lia).
  replace (x <? a + Z.of_nat n) with true by (symmetry; apply Z.ltb_lt; lia).
  reflexivity.
Qed.

Lemma store_le_outside (m : Memory) (a : Z) (n : nat) (v x : Z) :
  ~ (a <= x < a + Z.of_nat n) -> store_le m a n v x = m x.
Proof.
  intros H. unfold store_le.
  destruct (a <=? x) eqn:E1; destruct (x <? a + Z.of_nat n) eqn:E2;
    simpl; try reflexivity.
  apply Z.leb_le in E1. apply Z.ltb_lt in E2. lia.
Qed.

Lemma load_le_store_le_at (m : Memory) (a : Z) (n : nat) (v : Z) (k j : nat) :
  (j + k <= n)%nat ->
  load_le (store_le m a n v) (a + Z.of_nat j) k
  = (v / 256 ^ Z.of_nat j) mod 256 ^ Z.of_nat k.
Proof.
  revert j. induction k as [| k IH]; intros j Hjk.
  - simpl. rewrite Z.mod_1_r. reflexivity.
  - cbn [load_le].
    rewrite store_le_inside by lia.
    replace (a + Z.of_nat j + 1) with (a + Z.of_nat (S j)) by lia.
    rewrite IH by lia.
    replace (a + Z.of_nat j - a) with (Z.of_nat j) by lia.
    rewrite Zmod_mod.
    replace (Z.of_nat (S j)) with (Z.of_nat j + 1) by lia.
    replace (Z.of_nat (S k)) with (1 + Z.of_nat k) by lia.
    rewrite !Z.pow_add_r by lia. rewrite !Z.pow_1_r.
    rewrite <- Z.div_div by (try apply Z.pow_pos_nonneg; lia).
    rewrite (Z.rem_mul_r _ 256 (256 ^ Z.of_nat k))
      by (try apply Z.pow_pos_nonneg; lia).
    reflexivity.
Qed.

Lemma load_le_store_le (m : Memory) (a : Z) (n : nat) (v : Z) :
  load_le (store_le m a n v) a n = v mod 256 ^ Z.of_nat n.
Proof.
  pose proof (load_le_store_le_at m a n v n 0) as H.
  simpl in H. rewrite Z.add_0_r, Z.div_1_r in H. apply H. lia.
Qed.

Lemma load_i32_store_le (m : Memory) (a v : Z) :
  INT32_MIN <= v <= INT32_MAX -> load_i32 (store_le m a 4 v) a = v.
Proof.
  unfold INT32_MIN, INT32_MAX, load_i32. intros Hv.
  rewrite load_le_store_le. unfold swrap.
  change (256 ^ Z.of_nat 4) with (2 ^ 32).
  rewrite Zplus_mod_idemp_l. rewrite Z.mod_small; lia.
Qed.

Section PseudoRelocProperties.

Context {OS : MemoryProtection} {P : Program}.
Variable arch : Arch.

(** ** Outcomes *)

Lemma returned_Ret (A : Type) (o : Outcome A) (a : A) :
  returned o = Some a -> o = Ret a (world_of o).
Proof. destruct o; cbn; intros H; inversion H; reflexivity. Qed.

Ltac run :=
  unfold bind, get, modify, ret, terminate, record_call; cbn beta iota.

(** ** Fatal-error helpers *)

Lemma fatalErrorEarly_terminates (A : Type) (msg : string) (w : World) :
  @fatalErrorEarly OS P A msg w
  = Terminated (FastFail FastFailStackCookieCheckFailure)
      (add_call (call_OutputDebugStringA newline)
         (add_call (call_OutputDebugStringA msg)
            (add_call
               (call_OutputDebugStringA "FATAL: CRT initialization error: ")
               w))).
Proof. reflexivity. Qed.

(** ** [makeWritable] never touches memory *)

Lemma makeWritable_mem (addr size : Z) (w : World) :
  mem (world_of (makeWritable addr size w)) = mem w.
Proof.
  unfold makeWritable. run.
  destruct (alreadyTracked addr size (tracked w)); [reflexivity |].
  destruct (kMaxModifiedSections <=? g_numModifiedSections w);
    [reflexivity |].
  unfold fatalErrorEarly, OutputDebugStringA, __fastfail. run.
  destruct (VirtualProtect (prot w) addr size _) as [[old st'] |];
    reflexivity.
Qed.

Lemma makeWritable_ret_mem (addr size : Z) (w w1 : World) (b : bool) :
  makeWritable addr size w = Ret b w1 -> mem w1 = mem w.
Proof.
  intros H. pose proof (makeWritable_mem addr size w) as Hm.
  rewrite H in Hm. exact Hm.
Qed.

(** ** [restoreProtections] *)

(** It replays the tracked records first to last and resets the count; it
    always returns and touches neither memory nor the array itself. *)
Lemma restoreProtections_spec (w : World) :
  exists w',
    restoreProtections w = Ret tt w'
    /\ prot w' = restoreLoop (tracked w) (prot w)
    /\ g_numModifiedSections w' = 0
    /\ g_modifiedSections w' = g_modifiedSections w
    /\ mem w' = mem w.
Proof. eexists. split; [reflexivity |]. cbn. auto. Qed.

(** ** Pointer differences *)

Lemma ptr_bits_pos : 0 < ptr_bits arch.
Proof. unfold ptr_bits. destruct (is64 arch); lia. Qed.

Lemma ptrdiff_exact (p q : Z) :
  - 2 ^ (ptr_bits arch - 1) <= p - q < 2 ^ (ptr_bits arch - 1) ->
  ptrdiff arch p q = p - q.
Proof. intros H. apply swrap_id; [apply ptr_bits_pos | exact H]. Qed.

Lemma ptrdiff_int64 (p q : Z) : - 2 ^ 63 <= ptrdiff arch p q < 2 ^ 63.
Proof.
  unfold ptrdiff. pose proof (swrap_range (ptr_bits arch) (p - q) ptr_bits_pos).
  unfold ptr_bits in *. destruct (is64 arch); simpl in *; lia.
Qed.

Lemma load_i32_range (m : Memory) (a : Z) :
  - 2 ^ 31 <= load_i32 m a < 2 ^ 31.
Proof. unfold load_i32. apply (swrap_range 32). lia. Qed.

(** ** The loops take the fuel they need *)

Lemma relocLoopV2_fuel_any (n fuel : nat) (base reloc relocEnd : Z)
    (w : World) :
  (Z.to_nat (relocEnd - reloc) <= n)%nat ->
  (Z.to_nat (relocEnd - reloc) <= fuel)%nat ->
  relocLoopV2 arch n base reloc relocEnd w
  = relocLoopV2 arch fuel base reloc relocEnd w.
Proof.
  revert fuel reloc w.
  induction n as [| n IH]; intros fuel reloc w Hn Hf.
  - destruct fuel as [| fuel]; [reflexivity |].
    cbn [relocLoopV2].
    replace (reloc <? relocEnd) with false
      by (symmetry; apply Z.ltb_ge; lia).
    reflexivity.
  - destruct fuel as [| fuel].
    + cbn [relocLoopV2].
      replace (reloc <? relocEnd) with false
        by (symmetry; apply Z.ltb_ge; lia).
      reflexivity.
    + cbn [relocLoopV2].
      destruct (reloc <? relocEnd) eqn:E; [| reflexivity].
      apply Z.ltb_lt in E. run.
      destruct (applyRelocV2 arch base _ w) as [b w' | e w']; [| reflexivity].
      unfold sizeof_PseudoRelocV2. apply IH; lia.
Qed.

Lemma relocLoopV2_fuel (fuel : nat) (base reloc relocEnd : Z) (w : World) :
  (Z.to_nat (relocEnd - reloc) <= fuel)%nat ->
  relocLoopV2 arch fuel base reloc relocEnd w
  = relocLoopV2 arch (Z.to_nat (relocEnd - reloc)) base reloc relocEnd w.
Proof. intros H. apply relocLoopV2_fuel_any; lia. Qed.

Lemma relocLoopV1_fuel_any (n fuel : nat) (base reloc relocEnd : Z)
    (w : World) :
  (Z.to_nat (relocEnd - reloc) <= n)%nat ->
  (Z.to_nat (relocEnd - reloc) <= fuel)%nat ->
  relocLoopV1 arch n base reloc relocEnd w
  = relocLoopV1 arch fuel base reloc relocEnd w.
Proof.
  revert fuel reloc w.
  induction n as [| n IH]; intros fuel reloc w Hn Hf.
  - destruct fuel as [| fuel]; [reflexivity |].
    cbn [relocLoopV1].
    replace (reloc <? relocEnd) with false
      by (symmetry; apply Z.ltb_ge; lia).
    reflexivity.
  - destruct fuel as [| fuel].
    + cbn [relocLoopV1].
      replace (reloc <? relocEnd) with false
        by (symmetry; apply Z.ltb_ge; lia).
      reflexivity.
    + cbn [relocLoopV1].
      destruct (reloc <? relocEnd) eqn:E; [| reflexivity].
      apply Z.ltb_lt in E. run.
      destruct (applyRelocV1 arch base _ w) as [b w' | e w']; [| reflexivity].
      unfold sizeof_PseudoRelocV1. apply IH; lia.
Qed.

Lemma relocLoopV1_fuel (fuel : nat) (base reloc relocEnd : Z) (w : World) :
  (Z.to_nat (relocEnd - reloc) <= fuel)%nat ->
  relocLoopV1 arch fuel base reloc relocEnd w
  = relocLoopV1 arch (Z.to_nat (relocEnd - reloc)) base reloc relocEnd w.
Proof. intros H. apply relocLoopV1_fuel_any; lia. Qed.

(** The loop of [doPseudoReloc] is the [while] loop of the source. *)
Lemma relocLoopV2_unfold (base reloc relocEnd : Z) (w : World) :
  relocLoopV2 arch (Z.to_nat (relocEnd - reloc)) base reloc relocEnd w
  = if reloc <? relocEnd then
      match applyRelocV2 arch base (load_PseudoRelocV2 (mem w) reloc) w with
      | Ret _ w' =>
          relocLoopV2 arch
            (Z.to_nat (relocEnd - (reloc + sizeof_PseudoRelocV2)))
            base (reloc + sizeof_PseudoRelocV2) relocEnd w'
      | Terminated e w' => Terminated e w'
      end
    else Ret tt w.
Proof.
  destruct (reloc <? relocEnd) eqn:E.
  - apply Z.ltb_lt in E.
    destruct (Z.to_nat (relocEnd - reloc)) as [| n] eqn:En; [lia |].
    cbn [relocLoopV2]. replace (reloc <? relocEnd) with true
      by (symmetry; apply Z.ltb_lt; lia).
    run. destruct (applyRelocV2 arch base _ w) as [b w' | e w'];
      [| reflexivity].
    apply relocLoopV2_fuel. unfold sizeof_PseudoRelocV2. lia.
  - apply Z.ltb_ge in E.
    replace (Z.to_nat (relocEnd - reloc)) with O by lia. reflexivity.
Qed.

(** ** The call log through [makeWritable] *)

(** A [makeWritable] that returns has logged nothing. *)
Lemma makeWritable_ret_calls (addr size : Z) (w : World) (b : bool)
    (w1 : World) :
  makeWritable addr size w = Ret b w1 -> calls w1 = calls w.
Proof.
  unfold makeWritable. run.
  destruct (alreadyTracked addr size (tracked w)).
  { intros H. inversion H. reflexivity. }
  destruct (kMaxModifiedSections <=? g_numModifiedSections w).
  { rewrite fatalErrorEarly_terminates. discriminate. }
  run.
  destruct (VirtualProtect (prot w) addr size _) as [[old st'] |];
    intros H; inversion H; reflexivity.
Qed.

(** A [makeWritable] that does not return ended in its capacity error. *)
Lemma makeWritable_fatal (addr size : Z) (w : World) (e : Exit)
    (w1 : World) :
  makeWritable addr size w = Terminated e w1 ->
  e = FastFail FastFailStackCookieCheckFailure
  /\ calls w1
     = calls w
       ++ [ call_OutputDebugStringA "FATAL: CRT initialization error: ";
            call_OutputDebugStringA too_many_sections_msg;
            call_OutputDebugStringA newline ].
Proof.
  unfold makeWritable. run.
  destruct (alreadyTracked addr size (tracked w)); [discriminate |].
  destruct (kMaxModifiedSections <=? g_numModifiedSections w).
  - rewrite fatalErrorEarly_terminates. intros H. inversion H.
    split; [reflexivity |]. cbn. rewrite <- !app_assoc. reflexivity.
  - run.
    destruct (VirtualProtect (prot w) addr size _) as [[old st'] |];
      discriminate.
Qed.

(** [makeWritable] returns [false] exactly when the range is not inside a
    tracked record, the table is not full and [VirtualProtect] fails; it
    has then changed nothing. *)
Lemma makeWritable_false_iff (addr size : Z) (w w1 : World) :
  makeWritable addr size w = Ret false w1
  <-> (alreadyTracked addr size (tracked w) = false
       /\ g_numModifiedSections w < kMaxModifiedSections
       /\ VirtualProtect (prot w) addr size
            match VirtualQuery (prot w) addr with
            | Some p => getWritableProtection p
            | None => kPageReadwrite
            end = None
       /\ w1 = w).
Proof.
  unfold makeWritable. run.
  destruct (alreadyTracked addr size (tracked w)).
  { split; [discriminate | intros [H _]; discriminate H]. }
  destruct (Z.leb_spec kMaxModifiedSections (g_numModifiedSections w))
    as [Hfull | Hroom].
  { rewrite fatalErrorEarly_terminates.
    split; [discriminate | intros [_ [H _]]; lia]. }
  run.
  destruct (VirtualProtect (prot w) addr size _) as [[old st'] |].
  - split; [discriminate | intros [_ [_ [H _]]]; discriminate H].
  - split.
    + intros H. inversion H. subst. split; [reflexivity |].
      split; [exact Hroom |]. split; reflexivity.
    + intros [_ [_ [_ H]]]. subst. reflexivity.
Qed.

(** ** C1, as amended: a 32-bit V2 entry adds [delta] *)

(** C1 (amended).  For a V2 entry of size class 32: when [makeWritable]
    accepts the target range (it returns [true]) and the sum of the 32-bit
    value at [base + target] and [delta] fits a signed 32-bit integer,
    [applyRelocV2] returns [true] and leaves
    [original + delta] at [base + target]; when [makeWritable] rejects the
    range, the entry is skipped: [applyRelocV2] returns [false] in the
    state [makeWritable] left and the target keeps its value.
    [makeWritable] rejects the range (returns [false]) exactly when the
    range is not inside a tracked record, fewer than 64 records are in use
    and [VirtualProtect] fails, and it has then changed nothing.  [delta]
    is the pointer stored at [base + sym] minus the address [base + sym],
    as a [ptrdiff_t]. *)
Theorem applyRelocV2_size32_adds_delta
    (base : Z) (reloc : PseudoRelocV2) (w w1 : World) :
  Z.land (v2_flags reloc) kRelocFlagSizeMask = kRelocFlagSize32 ->
  (makeWritable (targetAddr_of arch base reloc) 4 w = Ret true w1 ->
   INT32_MIN
     <= load_i32 (mem w) (targetAddr_of arch base reloc)
        + delta_of arch (mem w) base reloc
     <= INT32_MAX ->
   exists w',
     applyRelocV2 arch base reloc w = Ret true w'
     /\ load_i32 (mem w') (targetAddr_of arch base reloc)
        = load_i32 (mem w) (targetAddr_of arch base reloc)
          + delta_of arch (mem w) base reloc)
  /\ (makeWritable (targetAddr_of arch base reloc) 4 w = Ret false w1 ->
      applyRelocV2 arch base reloc w = Ret false w1
      /\ load_i32 (mem w1) (targetAddr_of arch base reloc)
         = load_i32 (mem w) (targetAddr_of arch base reloc))
  /\ (makeWritable (targetAddr_of arch base reloc) 4 w = Ret false w1
      <-> (alreadyTracked (targetAddr_of arch base reloc) 4 (tracked w)
           = false
           /\ g_numModifiedSections w < kMaxModifiedSections
           /\ VirtualProtect (prot w) (targetAddr_of arch base reloc) 4
                match VirtualQuery (prot w) (targetAddr_of arch base reloc)
                with
                | Some p => getWritableProtection p
                | None => kPageReadwrite
                end = None
           /\ w1 = w)).
Proof.
  intros Hsize. split; [| split; [| apply makeWritable_false_iff]].
  - intros Hmw Hfit.
    unfold targetAddr_of, delta_of in *.
    pose proof (makeWritable_ret_mem _ _ _ _ _ Hmw) as Hmem.
    pose proof (load_i32_range (mem w) (ptr_add arch base (v2_target reloc)))
      as Hval.
    pose proof (ptrdiff_int64
                  (load_ptr arch (mem w) (ptr_add arch base (v2_sym reloc)))
                  (ptr_add arch base (v2_sym reloc))) as Hdelta.
    assert (Hsw : swrap 64
                    (load_i32 (mem w) (ptr_add arch base (v2_target reloc))
                     + ptrdiff arch
                         (load_ptr arch (mem w)
                            (ptr_add arch base (v2_sym reloc)))
                         (ptr_add arch base (v2_sym reloc)))
                  = load_i32 (mem w) (ptr_add arch base (v2_target reloc))
                    + ptrdiff arch
                        (load_ptr arch (mem w)
                           (ptr_add arch base (v2_sym reloc)))
                        (ptr_add arch base (v2_sym reloc))).
    { apply swrap_id; [lia |]. unfold INT32_MIN, INT32_MAX in Hfit. lia. }
    unfold applyRelocV2. run. rewrite Hsize.
    change (kRelocFlagSize32 / 8) with 4. rewrite Hmw.
    change (kRelocFlagSize32 =? kRelocFlagSize8) with false.
    change (kRelocFlagSize32 =? kRelocFlagSize16) with false.
    change (kRelocFlagSize32 =? kRelocFlagSize32) with true.
    cbn [negb]. cbv beta iota. rewrite Hmem, Hsw.
    set (val := load_i32 (mem w) (ptr_add arch base (v2_target reloc))) in *.
    set (delta := ptrdiff arch _ _) in *.
    replace (val + delta <? INT32_MIN) with false
      by (symmetry; apply Z.ltb_ge; lia).
    replace (INT32_MAX <? val + delta) with false
      by (symmetry; apply Z.ltb_ge; lia).
    cbn [orb]. cbv beta iota.
    rewrite (swrap_id 32 (val + delta))
      by (unfold INT32_MIN, INT32_MAX in Hfit; lia).
    eexists. split; [reflexivity |]. cbn [mem set_mem].
    apply load_i32_store_le. exact Hfit.
  - intros Hmw. split.
    + unfold targetAddr_of in Hmw. unfold applyRelocV2. run. rewrite Hsize.
      change (kRelocFlagSize32 / 8) with 4. rewrite Hmw. reflexivity.
    + rewrite (makeWritable_ret_mem _ _ _ _ _ Hmw). reflexivity.
Qed.

(** ** C2, as amended: an overflowing 32-bit V2 entry is fatal *)

(** C2 (amended).  For a V2 entry of size class 32: unless [makeWritable]
    returns [false] (that is, unless [VirtualProtect] refuses the target
    range), if the sum of the 32-bit value at [base + target] and [delta]
    falls outside [[INT32_MIN, INT32_MAX]], then [applyRelocV2] does not
    return: the process is terminated by
    [__fastfail(FastFailStackCookieCheckFailure)] after exactly three
    [OutputDebugStringA] calls (the prefix, the message, a newline; the
    message is the overflow message whenever [makeWritable] returned, and
    the capacity message when [makeWritable] itself was fatal), and
    the processing loop standing at that entry ends in that same terminated
    state, so no later entry is processed.  When [makeWritable] returns
    [false] the entry is skipped without an overflow test, whatever the
    sum: [applyRelocV2] returns [false] and the loop continues with the
    next entry.  [makeWritable] returns [false] exactly when the range is
    not inside a tracked record, fewer than 64 records are in use and
    [VirtualProtect] fails. *)
Theorem applyRelocV2_size32_overflow_is_fatal
    (base : Z) (reloc : PseudoRelocV2) (w : World) :
  Z.land (v2_flags reloc) kRelocFlagSizeMask = kRelocFlagSize32 ->
  ((forall w1, makeWritable (targetAddr_of arch base reloc) 4 w
               <> Ret false w1) ->
   ~ (INT32_MIN
        <= load_i32 (mem w) (targetAddr_of arch base reloc)
           + delta_of arch (mem w) base reloc
        <= INT32_MAX) ->
   exists w' msg,
     applyRelocV2 arch base reloc w
     = Terminated (FastFail FastFailStackCookieCheckFailure) w'
     /\ calls w'
        = calls w
          ++ [ call_OutputDebugStringA "FATAL: CRT initialization error: ";
               call_OutputDebugStringA msg;
               call_OutputDebugStringA newline ]
     /\ (msg = reloc_overflow_msg \/ msg = too_many_sections_msg)
     /\ (forall w1,
           makeWritable (targetAddr_of arch base reloc) 4 w = Ret true w1 ->
           msg = reloc_overflow_msg)
     /\ (forall e w1,
           makeWritable (targetAddr_of arch base reloc) 4 w
           = Terminated e w1 ->
           msg = too_many_sections_msg)
     /\ forall p relocEnd,
          p < relocEnd ->
          load_PseudoRelocV2 (mem w) p = reloc ->
          relocLoopV2 arch (Z.to_nat (relocEnd - p)) base p relocEnd w
          = Terminated (FastFail FastFailStackCookieCheckFailure) w')
  /\ (forall w1,
        makeWritable (targetAddr_of arch base reloc) 4 w = Ret false w1 ->
        applyRelocV2 arch base reloc w = Ret false w1
        /\ forall p relocEnd,
             p < relocEnd ->
             load_PseudoRelocV2 (mem w) p = reloc ->
             relocLoopV2 arch (Z.to_nat (relocEnd - p)) base p relocEnd w
             = relocLoopV2 arch
                 (Z.to_nat (relocEnd - (p + sizeof_PseudoRelocV2)))
                 base (p + sizeof_PseudoRelocV2) relocEnd w1)
  /\ (forall w1,
        makeWritable (targetAddr_of arch base reloc) 4 w = Ret false w1
        <-> (alreadyTracked (targetAddr_of arch base reloc) 4 (tracked w)
             = false
             /\ g_numModifiedSections w < kMaxModifiedSections
             /\ VirtualProtect (prot w) (targetAddr_of arch base reloc) 4
                  match VirtualQuery (prot w) (targetAddr_of arch base reloc)
                  with
                  | Some p => getWritableProtection p
                  | None => kPageReadwrite
                  end = None
             /\ w1 = w)).
Proof.
  intros Hsize.
  split; [| split; [| intros w1; apply makeWritable_false_iff]].
  - intros Hmw Hout.
    assert (Hloop : forall w',
               applyRelocV2 arch base reloc w
               = Terminated (FastFail FastFailStackCookieCheckFailure) w' ->
               forall p relocEnd,
                 p < relocEnd ->
                 load_PseudoRelocV2 (mem w) p = reloc ->
                 relocLoopV2 arch (Z.to_nat (relocEnd - p)) base p relocEnd w
                 = Terminated (FastFail FastFailStackCookieCheckFailure) w').
    { intros w' Happ p relocEnd Hp Hload.
      rewrite relocLoopV2_unfold.
      replace (p <? relocEnd) with true by (symmetry; apply Z.ltb_lt; lia).
      rewrite Hload, Happ. reflexivity. }
    unfold targetAddr_of, delta_of in *.
    pose proof (load_i32_range (mem w) (ptr_add arch base (v2_target reloc)))
      as Hval.
    pose proof (ptrdiff_int64
                  (load_ptr arch (mem w) (ptr_add arch base (v2_sym reloc)))
                  (ptr_add arch base (v2_sym reloc))) as Hdelta.
    pose proof (swrap64_fits_int32 _ _ Hval Hdelta) as Hiff.
    destruct (makeWritable (ptr_add arch base (v2_target reloc)) 4 w)
      as [b w1 | e w1] eqn:Hret.
    + destruct b; [| exfalso; exact (Hmw w1 eq_refl)].
      pose proof (makeWritable_ret_mem _ _ _ _ _ Hret) as Hmem.
      pose proof (makeWritable_ret_calls _ _ _ _ _ Hret) as Hcalls.
      assert (Happ : applyRelocV2 arch base reloc w
                     = Terminated (FastFail FastFailStackCookieCheckFailure)
                         (world_of
                            (@fatalErrorEarly OS P unit
                               reloc_overflow_msg w1))).
      { unfold applyRelocV2. run. rewrite Hsize.
        change (kRelocFlagSize32 / 8) with 4. rewrite Hret.
        change (kRelocFlagSize32 =? kRelocFlagSize8) with false.
        change (kRelocFlagSize32 =? kRelocFlagSize16) with false.
        change (kRelocFlagSize32 =? kRelocFlagSize32) with true.
        cbn [negb]. cbv beta iota. rewrite Hmem.
        set (newVal := swrap 64 _) in *.
        assert (Hor : (newVal <? INT32_MIN) || (INT32_MAX <? newVal) = true).
        { destruct (newVal <? INT32_MIN) eqn:E1; [reflexivity |].
          destruct (INT32_MAX <? newVal) eqn:E2; [reflexivity |].
          apply Z.ltb_ge in E1. apply Z.ltb_ge in E2.
          exfalso. apply Hout. apply Hiff. lia. }
        rewrite Hor. rewrite fatalErrorEarly_terminates. reflexivity. }
      eexists. exists reloc_overflow_msg. split; [exact Happ |].
      split; [| split; [left; reflexivity
                       | split; [reflexivity
                                | split; [intros e w2 H; discriminate H |]]]].
      * rewrite fatalErrorEarly_terminates. cbn. rewrite Hcalls.
        rewrite <- !app_assoc. reflexivity.
      * apply Hloop. exact Happ.
    + pose proof (makeWritable_fatal _ _ _ _ _ Hret) as [He Hcalls].
      subst e.
      assert (Happ : applyRelocV2 arch base reloc w
                     = Terminated (FastFail FastFailStackCookieCheckFailure)
                         w1).
      { unfold applyRelocV2. run. rewrite Hsize.
        change (kRelocFlagSize32 / 8) with 4. rewrite Hret. reflexivity. }
      exists w1, too_many_sections_msg. split; [exact Happ |].
      split; [exact Hcalls |]. split; [right; reflexivity |].
      split; [intros w2 H; discriminate H |].
      split; [reflexivity |].
      apply Hloop. exact Happ.
  - intros w1 Hmw.
    assert (Happ : applyRelocV2 arch base reloc w = Ret false w1).
    { unfold targetAddr_of in Hmw. unfold applyRelocV2. run. rewrite Hsize.
      change (kRelocFlagSize32 / 8) with 4. rewrite Hmw. reflexivity. }
    split; [exact Happ |].
    intros p relocEnd Hp Hload. rewrite relocLoopV2_unfold.
    replace (p <? relocEnd) with true by (symmetry; apply Z.ltb_lt; lia).
    rewrite Hload, Happ. reflexivity.
Qed.

(** A fatal entry also ends [doPseudoReloc]: protections are not restored. *)
Lemma doPseudoReloc_V2_fatal (start end_ base : Z) (w w' : World) (e : Exit) :
  start < end_ ->
  load_u32 (mem w) start = 0 ->
  load_u32 (mem w) (start + 4) = 0 ->
  load_u32 (mem w) (start + 8) = 1 ->
  relocLoopV2 arch (Z.to_nat (end_ - (start + sizeof_PseudoRelocHeader)))
    base (start + sizeof_PseudoRelocHeader) end_ w
  = Terminated e w' ->
  doPseudoReloc arch start end_ base w = Terminated e w'.
Proof.
  intros Hlt H1 H2 H3 Hloop. unfold doPseudoReloc.
  replace (end_ <=? start) with false by (symmetry; apply Z.leb_gt; lia).
  run. rewrite H1, H2, H3. cbn [Z.eqb andb negb Pos.eqb].
  rewrite Hloop. reflexivity.
Qed.

End PseudoRelocProperties.

(** ** How the steps of a pseudo-relocation pass can end *)

Section PassOutcomes.

Context {OS : MemoryProtection} {P : Program}.
Variable arch : Arch.

Lemma passM_ret (A : Type) (a : A) : passM (ret a).
Proof. intros w. reflexivity. Qed.

Lemma passM_get (A : Type) (f : World -> A) : passM (get f).
Proof. intros w. reflexivity. Qed.

Lemma passM_modify (f : World -> World) :
  (forall w, calls (f w) = calls w) -> passM (modify f).
Proof. intros Hf w. cbn. apply Hf. Qed.

Lemma passM_bind (A B : Type) (m : M A) (k : A -> M B) :
  passM m -> (forall a, passM (k a)) -> passM (bind m k).
Proof.
  intros Hm Hk w. unfold bind. specialize (Hm w).
  destruct (m w) as [a w1 | e w1]; cbn in Hm; [| exact Hm].
  specialize (Hk a w1). destruct (k a w1) as [b w2 | e w2]; cbn in *.
  - rewrite Hk. exact Hm.
  - destruct Hk as [He [msg [Hmsg Hc]]]. split; [exact He |].
    exists msg. split; [exact Hmsg |]. rewrite Hc, Hm. reflexivity.
Qed.

Lemma passM_fatalErrorEarly (A : Type) (msg : string) :
  msg = too_many_sections_msg \/ msg = reloc_overflow_msg ->
  passM (@fatalErrorEarly OS P A msg).
Proof.
  intros Hmsg w. rewrite fatalErrorEarly_terminates. cbn.
  split; [reflexivity |]. exists msg. split; [exact Hmsg |].
  rewrite <- !app_assoc. reflexivity.
Qed.

Ltac pass_step :=
  first
    [ apply passM_ret
    | apply passM_get
    | apply passM_fatalErrorEarly; (left; reflexivity) || (right; reflexivity)
    | apply passM_modify; intros; reflexivity
    | apply passM_bind; [| intros ?] ].

Lemma passM_makeWritable (addr size : Z) : passM (makeWritable addr size).
Proof.
  unfold makeWritable.
  apply passM_bind; [apply passM_get | intros l].
  destruct (alreadyTracked addr size l); [apply passM_ret |].
  apply passM_bind; [apply passM_get | intros n].
  apply passM_bind.
  { destruct (kMaxModifiedSections <=? n); repeat pass_step. }
  intros _. apply passM_bind; [apply passM_get | intros st].
  destruct (VirtualProtect st addr size _) as [[old st'] |];
    repeat pass_step.
Qed.

Lemma passM_restoreProtections : passM restoreProtections.
Proof. unfold restoreProtections. repeat pass_step. Qed.

Lemma passM_applyRelocV2 (base : Z) (reloc : PseudoRelocV2) :
  passM (applyRelocV2 arch base reloc).
Proof.
  unfold applyRelocV2.
  apply passM_bind; [apply passM_get | intros m].
  apply passM_bind; [apply passM_makeWritable | intros ok].
  destruct ok; cbn [negb]; [| apply passM_ret].
  apply passM_bind; [apply passM_get | intros m'].
  repeat match goal with
         | |- passM (if ?c then _ else _) => destruct c
         end; repeat pass_step.
  destruct (_ || _); repeat pass_step.
Qed.

Lemma passM_applyRelocV1 (base : Z) (reloc : PseudoRelocV1) :
  passM (applyRelocV1 arch base reloc).
Proof.
  unfold applyRelocV1.
  apply passM_bind; [apply passM_makeWritable | intros ok].
  destruct ok; repeat pass_step.
Qed.

Lemma passM_relocLoopV2 (fuel : nat) (base reloc relocEnd : Z) :
  passM (relocLoopV2 arch fuel base reloc relocEnd).
Proof.
  revert reloc. induction fuel as [| fuel IH]; intros reloc; cbn [relocLoopV2].
  - apply passM_ret.
  - destruct (reloc <? relocEnd); [| apply passM_ret].
    apply passM_bind; [apply passM_get | intros m].
    apply passM_bind; [apply passM_applyRelocV2 | intros _]. apply IH.
Qed.

Lemma passM_relocLoopV1 (fuel : nat) (base reloc relocEnd : Z) :
  passM (relocLoopV1 arch fuel base reloc relocEnd).
Proof.
  revert reloc. induction fuel as [| fuel IH]; intros reloc; cbn [relocLoopV1].
  - apply passM_ret.
  - destruct (reloc <? relocEnd); [| apply passM_ret].
    apply passM_bind; [apply passM_get | intros m].
    apply passM_bind; [apply passM_applyRelocV1 | intros _]. apply IH.
Qed.

Lemma passM_doPseudoReloc (start end_ base : Z) :
  passM (doPseudoReloc arch start end_ base).
Proof.
  unfold doPseudoReloc.
  destruct (end_ <=? start); [apply passM_ret |].
  apply passM_bind; [apply passM_get | intros m].
  destruct (_ && _).
  - destruct (negb _); [apply passM_ret |].
    apply passM_bind; [apply passM_relocLoopV2 | intros _].
    apply passM_restoreProtections.
  - apply passM_bind; [apply passM_relocLoopV1 | intros _].
    apply passM_restoreProtections.
Qed.



End PassOutcomes.

Section CookieProperties.

Context {OS : MemoryProtection} {P : Program}.
Variable arch : Arch.

(** ** The cookie check *)

(** C7.  [__security_check_cookie c] returns normally exactly when [c] is
    the stored [__security_cookie], and then changes nothing; for any other
    [c] it reaches [__report_gsfailure], which terminates the process by
    [__fastfail(FastFailStackCookieCheckFailure)] and so never returns. *)
Theorem security_check_cookie_spec (c : Z) (w : World) :
  ((exists w', __security_check_cookie c w = Ret tt w')
   <-> c = __security_cookie w)
  /\ (c = __security_cookie w -> __security_check_cookie c w = Ret tt w)
  /\ (c <> __security_cookie w ->
      __security_check_cookie c w
      = Terminated (FastFail FastFailStackCookieCheckFailure) w
      /\ __security_check_cookie c w = @__report_gsfailure OS P unit w).
Proof.
  unfold __security_check_cookie, __report_gsfailure, __fastfail, terminate,
    bind, get, ret.
  destruct (Z.eqb_spec c (__security_cookie w)) as [Heq | Hne]; cbn [negb].
  - repeat split; try (intros; eauto; congruence).
  - repeat split; try (intros; congruence).
    intros [w' H]. discriminate H.
Qed.

(** ** Cookie initialization *)

Lemma DefaultSecurityCookie_succ_initialized :
  cookie_already_initialized arch (DefaultSecurityCookie arch + 1) = true.
Proof. destruct arch; reflexivity. Qed.

(** The perturbation of a 32-bit cookie with an empty high word sets bit 16. *)
Lemma perturbed_bit16 (c : Z) :
  Z.testbit (Z.lor c (uwrap 32 (Z.shiftl (Z.lor c 0x4711) 16))) 16 = true.
Proof.
  rewrite Z.lor_spec. unfold uwrap.
  rewrite Z.mod_pow2_bits_low by lia.
  rewrite Z.shiftl_spec by lia.
  rewrite Z.lor_spec. change (16 - 16) with 0.
  change (Z.testbit 0x4711 0) with true.
  rewrite Bool.orb_true_r. apply Bool.orb_true_r.
Qed.

Lemma bit16_high_word (r : Z) :
  Z.testbit r 16 = true -> Z.land r 0xFFFF0000 <> 0.
Proof.
  intros Hb Hz.
  assert (H : Z.testbit (Z.land r 0xFFFF0000) 16 = true).
  { rewrite Z.land_spec, Hb. reflexivity. }
  rewrite Hz in H. rewrite Z.bits_0 in H. discriminate H.
Qed.

Lemma bit16_not_default32 (r : Z) :
  Z.testbit r 16 = true -> r <> 0xBB40E64E.
Proof.
  intros Hb Hr. rewrite Hr in Hb. vm_compute in Hb. discriminate Hb.
Qed.

(** Whatever the entropy, the value stored by a full initialization passes
    the "already initialized" test of the next call. *)
Lemma validate_cookie_initialized (c : Z) :
  cookie_already_initialized arch (validate_cookie arch c) = true.
Proof.
  unfold validate_cookie.
  destruct (Z.eqb_spec c (DefaultSecurityCookie arch)) as [Hd | Hd].
  - apply DefaultSecurityCookie_succ_initialized.
  - destruct (is64 arch) eqn:H64.
    + destruct (Z.eqb_spec c 0) as [H0 | H0].
      * apply DefaultSecurityCookie_succ_initialized.
      * unfold cookie_already_initialized.
        replace (c =? DefaultSecurityCookie arch) with false
          by (symmetry; apply Z.eqb_neq; exact Hd).
        destruct arch; try discriminate H64; reflexivity.
    + destruct (Z.eqb_spec (Z.land c 0xFFFF0000) 0) as [Hh | Hh].
      * pose proof (perturbed_bit16 c) as Hb.
        unfold cookie_already_initialized.
        assert (Hnd : Z.lor c (uwrap 32 (Z.shiftl (Z.lor c 0x4711) 16))
                      <> DefaultSecurityCookie arch).
        { unfold DefaultSecurityCookie. rewrite H64.
          apply bit16_not_default32. exact Hb. }
        replace (_ =? DefaultSecurityCookie arch) with false
          by (symmetry; apply Z.eqb_neq; exact Hnd).
        replace (Z.land _ 0xFFFF0000 =? 0) with false
          by (symmetry; apply Z.eqb_neq; apply bit16_high_word; exact Hb).
        destruct (isX86 arch); reflexivity.
      * unfold cookie_already_initialized.
        replace (c =? DefaultSecurityCookie arch) with false
          by (symmetry; apply Z.eqb_neq; exact Hd).
        replace (Z.land c 0xFFFF0000 =? 0) with false
          by (symmetry; apply Z.eqb_neq; exact Hh).
        destruct (isX86 arch); reflexivity.
Qed.

(** One call: it returns, the complement is the bitwise NOT of the cookie,
    and an already initialized cookie is kept. *)
Lemma security_init_cookie_once (w : World) :
  exists w',
    __security_init_cookie arch w = Ret tt w'
    /\ __security_cookie_complement w'
       = cookie_not arch (__security_cookie w')
    /\ cookie_already_initialized arch (__security_cookie w') = true
    /\ (cookie_already_initialized arch (__security_cookie w) = true ->
        w' = set_cookie_complement
               (cookie_not arch (__security_cookie w)) w).
Proof.
  unfold __security_init_cookie, bind, get, modify.
  destruct (cookie_already_initialized arch (__security_cookie w)) eqn:Hi.
  - eexists. split; [reflexivity |]. cbn. auto.
  - eexists. split; [reflexivity |]. cbn.
    split; [reflexivity |]. split; [| discriminate].
    apply validate_cookie_initialized.
Qed.

(** A call that finds the cookie not yet initialized stores the value
    computed from the entropy sources. *)
Lemma security_init_cookie_recomputes (w : World) :
  cookie_already_initialized arch (__security_cookie w) = false ->
  __security_cookie (world_of (__security_init_cookie arch w))
  = validate_cookie arch (gather_entropy arch (entropy w)).
Proof.
  intros Hi. unfold __security_init_cookie, bind, get, modify.
  rewrite Hi. reflexivity.
Qed.

(** C6 (amended).  After every call to [__security_init_cookie] the
    complement is the bitwise NOT of the cookie.  A call made when the
    cookie differs from the default value and, on x86, also has a non-zero
    high word, changes nothing but the complement; every call leaves the
    cookie in that condition, so after a first call any number [n] of
    further calls keeps the cookie of the first call.  A call made when the
    cookie is not in that condition stores the value computed from the
    entropy sources; in particular, on x86 a cookie that differs from the
    default but has a zero high word is recomputed, and the value stored
    differs from it. *)
Theorem security_init_cookie_idempotent (n : nat) (w : World) :
  exists w1 wn,
    __security_init_cookie arch w = Ret tt w1
    /\ __security_cookie_complement w1
       = cookie_not arch (__security_cookie w1)
    /\ (cookie_already_initialized arch (__security_cookie w) = true ->
        w1 = set_cookie_complement
               (cookie_not arch (__security_cookie w)) w)
    /\ repeat_call n (__security_init_cookie arch) w1 = Ret tt wn
    /\ __security_cookie wn = __security_cookie w1
    /\ __security_cookie_complement wn
       = cookie_not arch (__security_cookie wn)
    /\ cookie_already_initialized arch (__security_cookie w1) = true
    /\ (cookie_already_initialized arch (__security_cookie w) = false ->
        __security_cookie w1
        = validate_cookie arch (gather_entropy arch (entropy w)))
    /\ (isX86 arch = true ->
        __security_cookie w <> DefaultSecurityCookie arch ->
        Z.land (__security_cookie w) 0xFFFF0000 = 0 ->
        __security_cookie w1
        = validate_cookie arch (gather_entropy arch (entropy w))
        /\ __security_cookie w1 <> __security_cookie w).
Proof.
  destruct (security_init_cookie_once w) as [w1 [H1 [Hc1 [Hi1 Hk1]]]].
  exists w1.
  assert (Hn : forall k v,
             cookie_already_initialized arch (__security_cookie v) = true ->
             __security_cookie_complement v
             = cookie_not arch (__security_cookie v) ->
             exists v',
               repeat_call k (__security_init_cookie arch) v = Ret tt v'
               /\ __security_cookie v' = __security_cookie v
               /\ __security_cookie_complement v'
                  = cookie_not arch (__security_cookie v')).
  { induction k as [| k IH]; intros v Hv Hcv.
    - exists v. cbn. auto.
    - destruct (security_init_cookie_once v) as [v1 [E1 [Ec [Ei Ek]]]].
      specialize (Ek Hv).
      destruct (IH v1 Ei Ec) as [v' [E' [Ecook Ecomp]]].
      exists v'. cbn [repeat_call]. unfold bind. rewrite E1.
      split; [exact E' |]. split; [| exact Ecomp].
      rewrite Ecook, Ek. reflexivity. }
  destruct (Hn n w1 Hi1 Hc1) as [wn [En [Ecook Ecomp]]].
  exists wn.
  assert (Hfresh : cookie_already_initialized arch (__security_cookie w)
                   = false ->
                   __security_cookie w1
                   = validate_cookie arch (gather_entropy arch (entropy w))).
  { intros Hi. pose proof (security_init_cookie_recomputes w Hi) as Hr.
    rewrite H1 in Hr. exact Hr. }
  do 6 (split; [assumption |]). split; [exact Hi1 |].
  split; [exact Hfresh |].
  intros Hx86 Hnd Hhigh.
  assert (Hi : cookie_already_initialized arch (__security_cookie w) = false).
  { unfold cookie_already_initialized. rewrite Hx86, Hhigh.
    apply Bool.andb_false_r. }
  split; [exact (Hfresh Hi) |].
  intros Heq. unfold cookie_already_initialized in Hi1.
  rewrite Hx86, Heq, Hhigh in Hi1.
  rewrite Bool.andb_false_r in Hi1. discriminate Hi1.
Qed.

End CookieProperties.

Section InitProperties.

Context {OS : MemoryProtection} {P : Program}.
Variable arch : Arch.

(** ** The pseudo-relocation step only adds debug output to the call log *)

Lemma quiet_refl (w : World) : quiet w w.
Proof. split; [reflexivity |]. exists []. rewrite app_nil_r. auto. Qed.

Lemma quiet_trans (w1 w2 w3 : World) :
  quiet w1 w2 -> quiet w2 w3 -> quiet w1 w3.
Proof.
  intros [Hu1 [cs1 [Hc1 Hf1]]] [Hu2 [cs2 [Hc2 Hf2]]]. split.
  - congruence.
  - exists (cs1 ++ cs2). split.
    + rewrite Hc2, Hc1, app_assoc. reflexivity.
    + apply Forall_app. auto.
Qed.

Lemma quietM_ret (A : Type) (a : A) : quietM (ret a).
Proof. intros w. apply quiet_refl. Qed.

Lemma quietM_get (A : Type) (f : World -> A) : quietM (get f).
Proof. intros w. apply quiet_refl. Qed.

Lemma quietM_bind (A B : Type) (m : M A) (k : A -> M B) :
  quietM m -> (forall a, quietM (k a)) -> quietM (bind m k).
Proof.
  intros Hm Hk w. unfold bind. specialize (Hm w).
  destruct (m w) as [a w' | e w']; cbn in *.
  - eapply quiet_trans; [exact Hm | apply Hk].
  - exact Hm.
Qed.

Lemma quietM_modify (f : World -> World) :
  (forall w, user (f w) = user w) ->
  (forall w, calls (f w) = calls w) ->
  quietM (modify f).
Proof.
  intros Hu Hc w. cbn. split; [apply Hu |].
  exists []. rewrite app_nil_r. auto.
Qed.

Lemma quietM_OutputDebugStringA (msg : string) :
  quietM (OutputDebugStringA msg).
Proof.
  intros w. cbn. split; [reflexivity |].
  exists [call_OutputDebugStringA msg]. split; [reflexivity |].
  repeat constructor.
Qed.

Lemma quietM_fatalErrorEarly (A : Type) (msg : string) :
  quietM (@fatalErrorEarly OS P A msg).
Proof.
  unfold fatalErrorEarly.
  repeat (apply quietM_bind; [apply quietM_OutputDebugStringA | intros _]).
  intros w. apply quiet_refl.
Qed.

Ltac quiet_step :=
  first
    [ apply quietM_ret
    | apply quietM_get
    | apply quietM_fatalErrorEarly
    | apply quietM_modify; intros; reflexivity
    | apply quietM_bind; [| intros ?] ].

Lemma quietM_makeWritable (addr size : Z) : quietM (makeWritable addr size).
Proof.
  unfold makeWritable.
  apply quietM_bind; [apply quietM_get | intros l].
  destruct (alreadyTracked addr size l); [apply quietM_ret |].
  apply quietM_bind; [apply quietM_get | intros n].
  apply quietM_bind.
  { destruct (kMaxModifiedSections <=? n); repeat quiet_step. }
  intros _. apply quietM_bind; [apply quietM_get | intros st].
  destruct (VirtualProtect st addr size _) as [[old st'] |];
    repeat quiet_step.
Qed.

Lemma quietM_restoreProtections : quietM restoreProtections.
Proof. unfold restoreProtections. repeat quiet_step. Qed.

Lemma quietM_applyRelocV2 (base : Z) (reloc : PseudoRelocV2) :
  quietM (applyRelocV2 arch base reloc).
Proof.
  unfold applyRelocV2.
  apply quietM_bind; [apply quietM_get | intros m].
  apply quietM_bind; [apply quietM_makeWritable | intros ok].
  destruct ok; cbn [negb]; [| apply quietM_ret].
  apply quietM_bind; [apply quietM_get | intros m'].
  repeat match goal with
         | |- quietM (if ?c then _ else _) => destruct c
         end; repeat quiet_step.
  destruct (_ || _); repeat quiet_step.
Qed.

Lemma quietM_applyRelocV1 (base : Z) (reloc : PseudoRelocV1) :
  quietM (applyRelocV1 arch base reloc).
Proof.
  unfold applyRelocV1.
  apply quietM_bind; [apply quietM_makeWritable | intros ok].
  destruct ok; repeat quiet_step.
Qed.

Lemma quietM_relocLoopV2 (fuel : nat) (base reloc relocEnd : Z) :
  quietM (relocLoopV2 arch fuel base reloc relocEnd).
Proof.
  revert reloc. induction fuel as [| fuel IH]; intros reloc; cbn [relocLoopV2].
  - apply quietM_ret.
  - destruct (reloc <? relocEnd); [| apply quietM_ret].
    apply quietM_bind; [apply quietM_get | intros m].
    apply quietM_bind; [apply quietM_applyRelocV2 | intros _]. apply IH.
Qed.

Lemma quietM_relocLoopV1 (fuel : nat) (base reloc relocEnd : Z) :
  quietM (relocLoopV1 arch fuel base reloc relocEnd).
Proof.
  revert reloc. induction fuel as [| fuel IH]; intros reloc; cbn [relocLoopV1].
  - apply quietM_ret.
  - destruct (reloc <? relocEnd); [| apply quietM_ret].
    apply quietM_bind; [apply quietM_get | intros m].
    apply quietM_bind; [apply quietM_applyRelocV1 | intros _]. apply IH.
Qed.

Lemma quietM_doPseudoReloc (start end_ base : Z) :
  quietM (doPseudoReloc arch start end_ base).
Proof.
  unfold doPseudoReloc.
  destruct (end_ <=? start); [apply quietM_ret |].
  apply quietM_bind; [apply quietM_get | intros m].
  destruct (_ && _).
  - destruct (negb _); [apply quietM_ret |].
    apply quietM_bind; [apply quietM_relocLoopV2 | intros _].
    apply quietM_restoreProtections.
  - apply quietM_bind; [apply quietM_relocLoopV1 | intros _].
    apply quietM_restoreProtections.
Qed.

Lemma quietM_pei386_runtime_relocator : quietM (_pei386_runtime_relocator arch).
Proof.
  unfold _pei386_runtime_relocator, InitOnceExecuteOnce, pseudoRelocCallback.
  apply quietM_bind; [| intros _; apply quietM_ret].
  apply quietM_bind; [apply quietM_get | intros g].
  destruct g; [| apply quietM_ret].
  apply quietM_bind.
  { apply quietM_bind; [apply quietM_doPseudoReloc | intros _].
    apply quietM_ret. }
  intros ok. destruct ok; repeat quiet_step.
Qed.

(** The calls of the pseudo-relocation step: its own entry, then debug
    output only; the user state is not touched. *)
Lemma runPseudoRelocator_calls (w : World) :
  user (world_of (runPseudoRelocator arch w)) = user w
  /\ exists cs,
       calls (world_of (runPseudoRelocator arch w))
       = calls w ++ call_runPseudoRelocator :: cs
       /\ Forall is_debug_output cs.
Proof.
  unfold runPseudoRelocator, bind, record_call, modify.
  pose proof (quietM_pei386_runtime_relocator
                (add_call call_runPseudoRelocator w)) as [Hu [cs [Hc Hf]]].
  destruct (_pei386_runtime_relocator arch _) as [[] w' | e w'];
    cbn in *; (split; [exact Hu |]); exists cs;
    (split; [| exact Hf]); rewrite Hc, <- app_assoc; reflexivity.
Qed.

(** ** Running the section arrays *)

Lemma with_user_calls_same (w : World) :
  with_user_calls (user w) (calls w) w = w.
Proof. destruct w. reflexivity. Qed.

Lemma initterm_run (k : SectionKind) (slots : list (option (U -> U)))
    (i : nat) (w : World) :
  initterm k i slots w
  = Ret tt (with_user_calls (pvfv_state slots (user w))
              (calls w ++ slot_calls k i slots) w).
Proof.
  revert i w. induction slots as [| [f |] rest IH]; intros i w.
  - cbn. rewrite app_nil_r, with_user_calls_same. reflexivity.
  - cbn [initterm slot_calls pvfv_state]. unfold bind at 1.
    unfold call_PVFV, bind, record_call, modify. rewrite IH.
    unfold with_user_calls. cbn. rewrite <- app_assoc. reflexivity.
  - cbn [initterm slot_calls pvfv_state]. unfold bind at 1, ret.
    apply IH.
Qed.

Lemma initterm_e_success (k : SectionKind)
    (slots : list (option (U -> U * Z))) (i : nat) (w : World) :
  pifv_all_succeed slots (user w) ->
  initterm_e k i slots w
  = Ret 0 (with_user_calls (pifv_state slots (user w))
             (calls w ++ slot_calls k i slots) w).
Proof.
  revert i w. induction slots as [| [f |] rest IH]; intros i w Hok.
  - cbn. rewrite app_nil_r, with_user_calls_same. reflexivity.
  - cbn [initterm_e slot_calls pifv_state]. destruct Hok as [Hr Hrest].
    unfold bind at 1. unfold call_PIFV, bind, record_call, modify, get, ret.
    cbn. rewrite Hr. cbn. rewrite IH by exact Hrest.
    unfold with_user_calls. cbn. rewrite <- app_assoc. reflexivity.
  - cbn [initterm_e slot_calls pifv_state]. apply IH. exact Hok.
Qed.

Lemma initterm_e_failure (k : SectionKind)
    (pre : list (option (U -> U * Z))) (f : U -> U * Z)
    (post : list (option (U -> U * Z))) (i : nat) (w : World) :
  pifv_all_succeed pre (user w) ->
  snd (f (pifv_state pre (user w))) <> 0 ->
  initterm_e k i (pre ++ Some f :: post) w
  = Ret (snd (f (pifv_state pre (user w))))
      (with_user_calls (fst (f (pifv_state pre (user w))))
         (calls w ++ slot_calls k i pre ++ [call_slot k (i + length pre)]) w).
Proof.
  revert i w. induction pre as [| [g |] rest IH]; intros i w Hok Hfail.
  - cbn [app initterm_e slot_calls pifv_state length] in *.
    unfold bind at 1. unfold call_PIFV, bind, record_call, modify, get, ret.
    cbn. destruct (Z.eqb_spec (snd (f (user w))) 0) as [E | E];
      [contradiction |].
    cbn. rewrite Nat.add_0_r. reflexivity.
  - cbn [app initterm_e slot_calls pifv_state length] in *.
    destruct Hok as [Hr Hrest].
    unfold bind at 1. unfold call_PIFV, bind, record_call, modify, get, ret.
    cbn. rewrite Hr. cbn.
    rewrite IH by assumption.
    unfold with_user_calls. cbn. rewrite <- app_assoc. cbn.
    rewrite Nat.add_succ_r. reflexivity.
  - cbn [app initterm_e slot_calls pifv_state length] in *.
    rewrite IH by assumption. cbn.
    rewrite Nat.add_succ_r. reflexivity.
Qed.


Lemma pifv_first_failure (slots : list (option (U -> U * Z))) (u : U) :
  pifv_all_succeed slots u
  \/ exists pre f post,
       slots = pre ++ Some f :: post
       /\ pifv_all_succeed pre u
       /\ snd (f (pifv_state pre u)) <> 0.
Proof.
  revert u. induction slots as [| [f |] rest IH]; intros u.
  - left. exact I.
  - destruct (Z.eq_dec (snd (f u)) 0) as [E | E].
    + destruct (IH (fst (f u))) as [Hok | [pre [g [post [Hs [Hp Hf]]]]]].
      * left. split; assumption.
      * right. exists (Some f :: pre), g, post. rewrite Hs.
        repeat split; assumption.
    + right. exists [], f, rest. repeat split. exact E.
  - destruct (IH u) as [Hok | [pre [g [post [Hs [Hp Hf]]]]]].
    + left. exact Hok.
    + right. exists (None :: pre), g, post. rewrite Hs.
      repeat split; assumption.
Qed.




Lemma slot_calls_index (F : Type) (k k' : SectionKind)
    (slots : list (option F)) (i j : nat) :
  In (call_slot k' j) (slot_calls k i slots) ->
  k' = k /\ (i <= j < i + length slots)%nat.
Proof.
  revert i. induction slots as [| [g |] rest IH]; intros i Hin; cbn in *.
  - contradiction.
  - destruct Hin as [E | Hin].
    + inversion E; subst. split; [reflexivity | lia].
    + destruct (IH _ Hin) as [Hk Hj]. split; [exact Hk | lia].
  - destruct (IH _ Hin) as [Hk Hj]. split; [exact Hk | lia].
Qed.

(** ** Sorting the call log by start-up step *)




(** ** The start-up body *)

Lemma securityInitCookie_calls (w : World) :
  exists w',
    securityInitCookie arch w = Ret tt w'
    /\ calls w' = calls w ++ [call_securityInitCookie]
    /\ user w' = user w.
Proof.
  unfold securityInitCookie, __security_init_cookie, bind, record_call,
    modify, get.
  cbn. destruct (cookie_already_initialized arch (__security_cookie w));
    eexists; (split; [reflexivity |]); cbn; auto.
Qed.


(** The start-up body after a pseudo-relocation step that returned. *)
Lemma commonInitCallback_after_reloc (w w1 : World) :
  runPseudoRelocator arch w = Ret tt w1 ->
  exists w2,
    calls w2 = calls w1 ++ [call_securityInitCookie; call_fpreset]
    /\ user w2 = user w1
    /\ commonInitCallback arch w
       = match initterm_e XI 0 xi_slots w2 with
         | Ret r w3 =>
             if negb (r =? 0)
             then Terminated (AmsgExit (RuntimeError_code CrtInit)) w3
             else match initterm XC 0 xc_slots w3 with
                  | Ret _ w4 => Ret true w4
                  | Terminated e w4 => Terminated e w4
                  end
         | Terminated e w3 => Terminated e w3
         end.
Proof.
  intros Hreloc.
  destruct (securityInitCookie_calls w1) as [w2 [Hs [Hc2 Hu2]]].
  exists (add_call call_fpreset w2). split; [| split].
  - cbn. rewrite Hc2, <- app_assoc. reflexivity.
  - cbn. exact Hu2.
  - unfold commonInitCallback, bind. rewrite Hreloc, Hs.
    unfold _fpreset, record_call, modify.
    destruct (initterm_e XI 0 xi_slots _) as [r w3 | e w3]; [| reflexivity].
    destruct (negb (r =? 0)); [reflexivity |].
    unfold ret. destruct (initterm XC 0 xc_slots w3); reflexivity.
Qed.

(** C8.  When the pseudo-relocation step has returned and the C
    initializers before slot [length pre] all return 0 but the one in that
    slot returns non-zero, [commonInitCallback] does not return: the process
    is terminated through [fatalError(RuntimeError::CrtInit)], that is UCRT's
    [_amsg_exit(27)], the runtime-error path that shows a message; the last
    call made is the failing initializer, so no later C initializer and no
    C++ constructor is called. *)
Theorem failing_C_initializer_is_fatal
    (w w1 : World) (pre : list (option (U -> U * Z))) (f : U -> U * Z)
    (post : list (option (U -> U * Z))) :
  xi_slots = pre ++ Some f :: post ->
  runPseudoRelocator arch w = Ret tt w1 ->
  pifv_all_succeed pre (user w) ->
  snd (f (pifv_state pre (user w))) <> 0 ->
  exists w',
    commonInitCallback arch w
    = Terminated (AmsgExit (RuntimeError_code CrtInit)) w'
    /\ calls w'
       = calls w1 ++ [call_securityInitCookie; call_fpreset]
         ++ slot_calls XI 0 pre ++ [call_slot XI (length pre)]
    /\ (forall j, In (call_slot XI j) (calls w') ->
                  In (call_slot XI j) (calls w) \/ (j <= length pre)%nat)
    /\ (forall j, In (call_slot XC j) (calls w') ->
                  In (call_slot XC j) (calls w)).
Proof.
  intros Hxi Hreloc Hpre Hfail.
  destruct (runPseudoRelocator_calls w) as [Hu1 [dbg [Hc1 Hdbg]]].
  rewrite Hreloc in Hu1, Hc1. cbn in Hu1, Hc1.
  destruct (commonInitCallback_after_reloc w w1 Hreloc)
    as [w2 [Hc2 [Hu2 Hbody]]].
  rewrite Hxi in Hbody.
  rewrite initterm_e_failure in Hbody by (rewrite Hu2, Hu1; assumption).
  rewrite Hu2, Hu1 in Hbody.
  replace (negb (snd (f (pifv_state pre (user w))) =? 0)) with true in Hbody
    by (symmetry; apply Bool.negb_true_iff, Z.eqb_neq; exact Hfail).
  eexists. split; [exact Hbody |]. cbn [calls with_user_calls].
  rewrite Hc2, <- !app_assoc. cbn [Nat.add].
  split; [reflexivity |].
  assert (Hnodbg : forall k j, ~ In (call_slot k j) dbg).
  { intros k j Hin. rewrite Forall_forall in Hdbg.
    exact (Hdbg _ Hin). }
  split.
  - intros j Hin. rewrite Hc1 in Hin.
    rewrite !in_app_iff in Hin. cbn in Hin.
    destruct Hin as [[Hin | [Hin | Hin]] | [[Hin | [Hin | []]] | [Hin | Hin]]];
      try discriminate Hin; auto.
    + exfalso. exact (Hnodbg _ _ Hin).
    + right. apply slot_calls_index in Hin. lia.
    + destruct Hin as [Hin | []]. inversion Hin. right. lia.
  - intros j Hin. rewrite Hc1 in Hin.
    rewrite !in_app_iff in Hin. cbn in Hin.
    destruct Hin as [[Hin | [Hin | Hin]] | [[Hin | [Hin | []]] | [Hin | Hin]]];
      try discriminate Hin; auto.
    + exfalso. exact (Hnodbg _ _ Hin).
    + apply slot_calls_index in Hin. destruct Hin as [Hk _]. discriminate Hk.
    + destruct Hin as [Hin | []]. discriminate Hin.
Qed.


(** ** The guard of [commonInit], one caller at a time *)

(** Whenever the start-up body returns, it returns TRUE. *)
Lemma commonInitCallback_returns_TRUE (w : World) (b : bool) (w' : World) :
  commonInitCallback arch w = Ret b w' -> b = true.
Proof.
  unfold commonInitCallback, bind, ret.
  destruct (runPseudoRelocator arch w) as [? w1 |]; [| discriminate].
  destruct (securityInitCookie arch w1) as [? w2 |]; [| discriminate].
  destruct (_fpreset w2) as [? w3 |]; [| discriminate].
  destruct (initterm_e XI 0 xi_slots w3) as [r w4 |]; [| discriminate].
  destruct (negb (r =? 0)); [discriminate |].
  destruct (initterm XC 0 xc_slots w4) as [? w5 |]; [| discriminate].
  intros H. inversion H. reflexivity.
Qed.

(** A call that finds the guard completed runs nothing. *)
Lemma commonInit_completed (w : World) :
  g_commonInitOnce w = INIT_ONCE_COMPLETE -> commonInit arch w = Ret tt w.
Proof.
  intros Hg. unfold commonInit, InitOnceExecuteOnce, bind, get, ret.
  rewrite Hg. reflexivity.
Qed.

(** A call that returns leaves the guard completed: the callback never
    returns FALSE, so the guard never goes back to its initial state. *)
Lemma commonInit_completes (w w' : World) :
  commonInit arch w = Ret tt w' ->
  g_commonInitOnce w' = INIT_ONCE_COMPLETE.
Proof.
  unfold commonInit, InitOnceExecuteOnce, bind, get, ret, modify.
  destruct (g_commonInitOnce w) eqn:Hg.
  - destruct (commonInitCallback arch w) as [b w1 | e w1] eqn:Hcb;
      [| discriminate].
    rewrite (commonInitCallback_returns_TRUE w b w1 Hcb).
    intros H. inversion H. reflexivity.
  - intros H. inversion H. subst. exact Hg.
Qed.

(** ** The DLL entry point on process detach *)

(** C9.  On [DLL_PROCESS_DETACH] the entry point makes the module-scoped
    clean-up calls ([__cxa_finalize(__dso_handle)] when the weak symbol is
    linked, then the pre-terminators, then the terminators) exactly when
    [lpvReserved] is null, makes none of them otherwise, and in both cases
    then calls the user's [DllMain] and returns its result. *)
Theorem DllMainCRTStartup_process_detach
    (hinstDLL lpvReserved : Z) (w : World) :
  let cleanup := if lpvReserved =? 0 then module_cleanup_calls else [] in
  let u := if lpvReserved =? 0 then module_cleanup_state (user w)
           else user w in
  _DllMainCRTStartup arch hinstDLL kDllProcessDetach lpvReserved w
  = Ret (snd (DllMain hinstDLL kDllProcessDetach lpvReserved u))
      (with_user_calls
         (fst (DllMain hinstDLL kDllProcessDetach lpvReserved u))
         (calls w ++ cleanup
          ++ [call_DllMain hinstDLL kDllProcessDetach lpvReserved])
         w).
Proof.
  cbv zeta. unfold _DllMainCRTStartup.
  change (kDllProcessDetach =? kDllProcessAttach) with false.
  change (kDllProcessDetach =? kDllProcessDetach) with true.
  cbv iota. destruct (lpvReserved =? 0).
  - unfold module_cleanup_calls, module_cleanup_state, CRT_CXA_FINALIZE_CALL,
      runPreterminators, runTerminators.
    destruct cxa_finalize as [fin |];
      unfold bind, record_call, modify, ret;
      repeat (rewrite initterm_run; cbv beta iota);
      unfold call_user_DllMain, bind, record_call, modify, get, ret;
      unfold with_user_calls, set_user, add_call; cbn;
      rewrite <- !app_assoc; reflexivity.
  - unfold call_user_DllMain, bind, record_call, modify, get, ret.
    reflexivity.
Qed.

End InitProperties.

(** ** TLS directory *)

(** C10 (amended).  The directory record declares exactly the six fields
    start-of-template, end-of-template, address-of-index, address-of-callbacks,
    size-of-zero-fill and characteristics, in that order.  The four address
    fields have the pointer width of the target; size-of-zero-fill and
    characteristics are 32-bit [DWORD]s on every target.  The initializer of
    [_tls_used] gives one value per field and sets the last two to zero. *)
Theorem tls_directory_layout (a : Arch) (s : TlsSymbols) :
  map fst (CRT_IMAGE_TLS_DIRECTORY a)
  = [ "StartAddressOfRawData"%string; "EndAddressOfRawData"%string;
      "AddressOfIndex"%string; "AddressOfCallBacks"%string;
      "SizeOfZeroFill"%string; "Characteristics"%string ]
  /\ map (fun f => FieldType_bits (snd f)) (CRT_IMAGE_TLS_DIRECTORY a)
     = [ ptr_bits a; ptr_bits a; ptr_bits a; ptr_bits a; 32; 32 ]
  /\ length (_tls_used s) = length (CRT_IMAGE_TLS_DIRECTORY a)
  /\ nth_error (_tls_used s) 4 = Some 0
  /\ nth_error (_tls_used s) 5 = Some 0.
Proof. destruct a; repeat split; reflexivity. Qed.


(** ** Relations kept by the pseudo-relocation pass *)

Section Relational.

Context {OS : MemoryProtection} {P : Program}.
Variable arch : Arch.
Variable R : World -> World -> Prop.

Hypothesis R_refl : forall w, R w w.
Hypothesis R_trans : forall w1 w2 w3, R w1 w2 -> R w2 w3 -> R w1 w3.
Hypothesis R_add_call : forall w c, R w (add_call c w).
Hypothesis R_set_mem : forall w m, R w (set_mem m w).
Hypothesis R_set_prot : forall w st, R w (set_prot st w).
Hypothesis R_reset :
  forall w, R w (set_modifiedSections (g_modifiedSections w) 0 w).
Hypothesis R_push :
  forall w rec,
    g_numModifiedSections w < kMaxModifiedSections ->
    R w (set_modifiedSections
           (array_set (g_modifiedSections w)
              (Z.to_nat (g_numModifiedSections w)) rec)
           (g_numModifiedSections w + 1) w).

Lemma relM_ret (A : Type) (a : A) : relM R (ret a).
Proof. intros w. apply R_refl. Qed.

Lemma relM_get (A : Type) (f : World -> A) : relM R (get f).
Proof. intros w. apply R_refl. Qed.

Lemma relM_bind (A B : Type) (m : M A) (k : A -> M B) :
  relM R m -> (forall a, relM R (k a)) -> relM R (bind m k).
Proof.
  intros Hm Hk w. unfold bind. specialize (Hm w).
  destruct (m w) as [a w' | e w']; cbn in *.
  - eapply R_trans; [exact Hm | apply Hk].
  - exact Hm.
Qed.

Lemma relM_fatalErrorEarly (A : Type) (msg : string) :
  relM R (@fatalErrorEarly OS P A msg).
Proof.
  intros w. rewrite fatalErrorEarly_terminates. cbn [world_of].
  eapply R_trans; [apply R_add_call |].
  eapply R_trans; [apply R_add_call |]. apply R_add_call.
Qed.

Lemma relM_set_mem (m : Memory) : relM R (modify (set_mem m)).
Proof. intros w. apply R_set_mem. Qed.

Lemma relM_makeWritable (addr size : Z) : relM R (makeWritable addr size).
Proof.
  intros w. unfold makeWritable, bind, get, modify, ret.
  destruct (alreadyTracked addr size (tracked w)); [apply R_refl |].
  destruct (kMaxModifiedSections <=? g_numModifiedSections w) eqn:Hcap.
  - apply relM_fatalErrorEarly.
  - cbn [world_of].
    destruct (VirtualProtect (prot w) addr size _) as [[old st'] |];
      cbn [world_of]; [| apply R_refl].
    eapply R_trans; [apply (R_set_prot w st') |].
    apply (R_push (set_prot st' w)). cbn. apply Z.leb_gt. exact Hcap.
Qed.

Lemma relM_restoreProtections : relM R restoreProtections.
Proof.
  intros w. unfold restoreProtections, bind, get, modify. cbn [world_of].
  eapply R_trans; [apply (R_set_prot w) |].
  apply (R_reset (set_prot _ w)).
Qed.

Lemma relM_applyRelocV2 (base : Z) (reloc : PseudoRelocV2) :
  relM R (applyRelocV2 arch base reloc).
Proof.
  unfold applyRelocV2.
  apply relM_bind; [apply relM_get | intros m].
  apply relM_bind; [apply relM_makeWritable | intros ok].
  destruct ok; cbn [negb]; [| apply relM_ret].
  apply relM_bind; [apply relM_get | intros m'].
  repeat match goal with
         | |- relM R (if ?c then _ else _) => destruct c
         end;
    repeat first
      [ apply relM_ret
      | apply relM_set_mem
      | apply relM_fatalErrorEarly
      | apply relM_bind; [| intros ?] ].
  destruct (_ || _); [apply relM_fatalErrorEarly | apply relM_ret].
Qed.

Lemma relM_applyRelocV1 (base : Z) (reloc : PseudoRelocV1) :
  relM R (applyRelocV1 arch base reloc).
Proof.
  unfold applyRelocV1.
  apply relM_bind; [apply relM_makeWritable | intros ok].
  destruct ok; [| apply relM_ret].
  apply relM_bind; [apply relM_get | intros m]. apply relM_set_mem.
Qed.

Lemma relM_relocLoopV2 (fuel : nat) (base reloc relocEnd : Z) :
  relM R (relocLoopV2 arch fuel base reloc relocEnd).
Proof.
  revert reloc. induction fuel as [| fuel IH]; intros reloc; cbn [relocLoopV2].
  - apply relM_ret.
  - destruct (reloc <? relocEnd); [| apply relM_ret].
    apply relM_bind; [apply relM_get | intros m].
    apply relM_bind; [apply relM_applyRelocV2 | intros _]. apply IH.
Qed.

Lemma relM_relocLoopV1 (fuel : nat) (base reloc relocEnd : Z) :
  relM R (relocLoopV1 arch fuel base reloc relocEnd).
Proof.
  revert reloc. induction fuel as [| fuel IH]; intros reloc; cbn [relocLoopV1].
  - apply relM_ret.
  - destruct (reloc <? relocEnd); [| apply relM_ret].
    apply relM_bind; [apply relM_get | intros m].
    apply relM_bind; [apply relM_applyRelocV1 | intros _]. apply IH.
Qed.

Lemma relM_doPseudoReloc (start end_ base : Z) :
  relM R (doPseudoReloc arch start end_ base).
Proof.
  unfold doPseudoReloc.
  destruct (end_ <=? start); [apply relM_ret |].
  apply relM_bind; [apply relM_get | intros m].
  destruct (_ && _).
  - destruct (negb _); [apply relM_ret |].
    apply relM_bind; [apply relM_relocLoopV2 | intros _].
    apply relM_restoreProtections.
  - apply relM_bind; [apply relM_relocLoopV1 | intros _].
    apply relM_restoreProtections.
Qed.

End Relational.

Section PseudoRelocFurther.

Context {OS : MemoryProtection} {P : Program}.
Variable arch : Arch.

Lemma array_set_length (A : Type) (a : list A) (i : nat) (x : A) :
  length (array_set a i x) = length a.
Proof.
  revert i. induction a as [| y r IH]; intros [| j]; cbn; auto.
Qed.

(** X1.  The tracking table keeps its shape through a whole pass, however
    the pass ends: the array keeps its 64 slots and the count stays between
    0 and 64. *)
Theorem doPseudoReloc_keeps_tracking_wf (start end_ base : Z) (w : World) :
  tracking_wf w ->
  tracking_wf (world_of (doPseudoReloc arch start end_ base w)).
Proof.
  revert w.
  apply (relM_doPseudoReloc arch (fun w w' => tracking_wf w -> tracking_wf w')).
  - auto.
  - auto.
  - intros w c H. exact H.
  - intros w m H. exact H.
  - intros w st H. exact H.
  - intros w [Hl Hn]. split; cbn; [exact Hl | unfold kMaxModifiedSections; lia].
  - intros w rec Hlt [Hl Hn]. split; cbn.
    + rewrite array_set_length. exact Hl.
    + lia.
Qed.

(** ** How a pass can end *)

(** X2.  A pseudo-relocation pass has only two fatal exits.  A pass that
    returns has added nothing to the call log; a pass that does not return
    has ended by [__fastfail(FastFailStackCookieCheckFailure)] after exactly
    the three debug strings of [fatalErrorEarly], whose message is either
    the capacity error of [makeWritable] or the 32-bit overflow error of
    [applyRelocV2]. *)
Theorem doPseudoReloc_fatal_paths (start end_ base : Z) (w : World) :
  match doPseudoReloc arch start end_ base w with
  | Ret _ w' => calls w' = calls w
  | Terminated e w' =>
      e = FastFail FastFailStackCookieCheckFailure
      /\ exists msg,
           (msg = "Pseudo-reloc: too many modified sections (limit 64)"%string
            \/ msg = "Pseudo-reloc: 32-bit relocation overflow. Address delta exceeds INT32 range."%string)
           /\ calls w'
              = calls w
                ++ [ call_OutputDebugStringA
                       "FATAL: CRT initialization error: ";
                     call_OutputDebugStringA msg;
                     call_OutputDebugStringA newline ]
  end.
Proof. exact (passM_doPseudoReloc arch start end_ base w). Qed.

(** ** Tables with nothing to process *)

(** X3.  An empty table ([start >= end]) and a V2 table whose header names
    a version other than 1 are left alone: [doPseudoReloc] returns and the
    process state is exactly what it was (no memory write, no protection
    change, no tracking record). *)
Theorem doPseudoReloc_nothing_to_do (start end_ base : Z) (w : World) :
  end_ <= start
  \/ (load_u32 (mem w) start = 0
      /\ load_u32 (mem w) (start + 4) = 0
      /\ load_u32 (mem w) (start + 8) <> 1) ->
  doPseudoReloc arch start end_ base w = Ret tt w.
Proof.
  intros H. unfold doPseudoReloc.
  destruct (Z.leb_spec end_ start) as [Hle | Hgt]; [reflexivity |].
  destruct H as [H | [H1 [H2 H3]]]; [lia |].
  unfold bind, get, ret. rewrite H1, H2. cbn [Z.eqb andb].
  replace (load_u32 (mem w) (start + 8) =? 1) with false
    by (symmetry; apply Z.eqb_neq; exact H3).
  reflexivity.
Qed.

(** ** [makeWritable] *)

(** X4.  When the range is not inside a tracked record and all 64 records
    are in use, [makeWritable] does not return: it writes the three debug
    strings and ends the process by [__fastfail], without having asked for
    any protection change. *)
Theorem makeWritable_capacity_exhausted (addr size : Z) (w : World) :
  alreadyTracked addr size (tracked w) = false ->
  kMaxModifiedSections <= g_numModifiedSections w ->
  exists w',
    makeWritable addr size w
    = Terminated (FastFail FastFailStackCookieCheckFailure) w'
    /\ calls w'
       = calls w
         ++ [ call_OutputDebugStringA "FATAL: CRT initialization error: ";
              call_OutputDebugStringA
                "Pseudo-reloc: too many modified sections (limit 64)";
              call_OutputDebugStringA newline ]
    /\ prot w' = prot w
    /\ mem w' = mem w
    /\ g_numModifiedSections w' = g_numModifiedSections w
    /\ g_modifiedSections w' = g_modifiedSections w.
Proof.
  intros Hnt Hcap. unfold makeWritable, bind, get. rewrite Hnt.
  replace (kMaxModifiedSections <=? g_numModifiedSections w) with true
    by (symmetry; apply Z.leb_le; exact Hcap).
  rewrite fatalErrorEarly_terminates. eexists. split; [reflexivity |].
  cbn. rewrite <- !app_assoc. auto 10.
Qed.

Lemma alreadyTracked_mono (addr size a s : Z) (l : list ModifiedSection) :
  alreadyTracked addr size l = true ->
  addr <= a -> a + s <= addr + size ->
  alreadyTracked a s l = true.
Proof.
  intros H Ha Hs.
  induction l as [| r l IH]; cbn [alreadyTracked] in *; cbv zeta in *;
    [discriminate H |].
  destruct ((ms_address r <=? addr)
            && (addr + size <=? ms_address r + ms_size r)) eqn:E.
  - apply andb_prop in E. destruct E as [E1 E2].
    apply Z.leb_le in E1. apply Z.leb_le in E2.
    replace (ms_address r <=? a) with true
      by (symmetry; apply Z.leb_le; lia).
    replace (a + s <=? ms_address r + ms_size r) with true
      by (symmetry; apply Z.leb_le; lia).
    reflexivity.
  - rewrite (IH H).
    destruct ((ms_address r <=? a) && (a + s <=? ms_address r + ms_size r));
      reflexivity.
Qed.

Lemma alreadyTracked_last (a s : Z) (l : list ModifiedSection)
    (r : ModifiedSection) :
  ms_address r <= a -> a + s <= ms_address r + ms_size r ->
  alreadyTracked a s (l ++ [r]) = true.
Proof.
  intros H1 H2.
  induction l as [| x l IH]; cbn [alreadyTracked app]; cbv zeta.
  - replace (ms_address r <=? a) with true
      by (symmetry; apply Z.leb_le; lia).
    replace (a + s <=? ms_address r + ms_size r) with true
      by (symmetry; apply Z.leb_le; lia).
    reflexivity.
  - rewrite IH.
    destruct ((ms_address x <=? a) && (a + s <=? ms_address x + ms_size x));
      reflexivity.
Qed.

Lemma firstn_array_set (A : Type) (a : list A) (n : nat) (x : A) :
  (n < length a)%nat ->
  firstn (S n) (array_set a n x) = firstn n a ++ [x].
Proof.
  revert n. induction a as [| y r IH]; intros [| n] Hn; cbn in *;
    try lia; try reflexivity.
  f_equal. apply IH. lia.
Qed.

(** X5.  Once [makeWritable] has accepted a range, every range inside it
    is accepted again without a new record, a new query or a new protection
    change: the call returns [true] and the state is untouched. *)
Theorem makeWritable_then_covered (addr size a s : Z) (w w1 : World) :
  tracking_wf w ->
  makeWritable addr size w = Ret true w1 ->
  addr <= a -> a + s <= addr + size ->
  makeWritable a s w1 = Ret true w1.
Proof.
  intros [Hlen Hn] Hmw Ha Hs.
  assert (Hcov : alreadyTracked a s (tracked w1) = true).
  { unfold makeWritable, bind, get, modify, ret in Hmw.
    destruct (alreadyTracked addr size (tracked w)) eqn:Ht.
    - inversion Hmw; subst. eapply alreadyTracked_mono; eauto.
    - destruct (kMaxModifiedSections <=? g_numModifiedSections w) eqn:Hcap.
      + rewrite fatalErrorEarly_terminates in Hmw. discriminate Hmw.
      + apply Z.leb_gt in Hcap.
        destruct (VirtualProtect (prot w) addr size _) as [[old st'] |];
          [| discriminate Hmw].
        inversion Hmw; subst. unfold tracked. cbn.
        replace (Z.to_nat (g_numModifiedSections w + 1))
          with (S (Z.to_nat (g_numModifiedSections w))) by lia.
        rewrite firstn_array_set
          by (rewrite Hlen; unfold kMaxModifiedSections in *; lia).
        apply alreadyTracked_last; cbn; lia. }
  unfold makeWritable, bind, get, ret. rewrite Hcov. reflexivity.
Qed.

(** ** Entries of the other formats and widths *)

Lemma swrap_add_swrap (w a b : Z) :
  swrap w (a + swrap w b) = swrap w (a + b).
Proof.
  unfold swrap. f_equal.
  replace (a + ((b + 2 ^ (w - 1)) mod 2 ^ w - 2 ^ (w - 1)) + 2 ^ (w - 1))
    with (a + (b + 2 ^ (w - 1)) mod 2 ^ w) by lia.
  rewrite Zplus_mod_idemp_r. f_equal. lia.
Qed.

Lemma swrap_idem (w z : Z) : swrap w (swrap w z) = swrap w z.
Proof. apply (swrap_add_swrap w 0 z). Qed.

Lemma swrap_mod (w z : Z) : swrap w (z mod 2 ^ w) = swrap w z.
Proof. unfold swrap. rewrite Zplus_mod_idemp_l. reflexivity. Qed.

(** X6.  A V1 entry is a 32-bit addition with wrap-around and no
    overflow test: when [makeWritable] accepts the four target bytes, the
    step returns and the [DWORD] at [base + target] has become
    [(original + addend) mod 2^32]. *)
Theorem applyRelocV1_adds_addend
    (base : Z) (reloc : PseudoRelocV1) (w w1 : World) :
  makeWritable (ptr_add arch base (v1_target reloc)) 4 w = Ret true w1 ->
  exists w',
    applyRelocV1 arch base reloc w = Ret tt w'
    /\ load_u32 (mem w') (ptr_add arch base (v1_target reloc))
       = (load_u32 (mem w) (ptr_add arch base (v1_target reloc))
          + v1_addend reloc) mod 2 ^ 32.
Proof.
  intros Hmw. pose proof (makeWritable_ret_mem _ _ _ _ _ Hmw) as Hmem.
  unfold applyRelocV1, bind, get, modify. rewrite Hmw.
  eexists. split; [reflexivity |]. cbn [mem set_mem]. rewrite Hmem.
  unfold load_u32 at 1. rewrite load_le_store_le. unfold uwrap.
  change (256 ^ Z.of_nat 4) with (2 ^ 32). apply Zmod_mod.
Qed.

(** X7.  V2 entries of size class 8, 16 and 64 add [delta] in their own
    width with wrap-around; unlike size class 32 they have no overflow
    test, so a delta that does not fit is truncated silently. *)
Theorem applyRelocV2_other_sizes_wrap
    (bits base : Z) (reloc : PseudoRelocV2) (w w1 : World) :
  bits = 8 \/ bits = 16 \/ bits = 64 ->
  Z.land (v2_flags reloc) kRelocFlagSizeMask = bits ->
  makeWritable (targetAddr_of arch base reloc) (bits / 8) w = Ret true w1 ->
  exists w',
    applyRelocV2 arch base reloc w = Ret true w'
    /\ load_signed bits (mem w') (targetAddr_of arch base reloc)
       = swrap bits
           (load_signed bits (mem w) (targetAddr_of arch base reloc)
            + delta_of arch (mem w) base reloc).
Proof.
  intros Hbits Hsize Hmw. unfold targetAddr_of, delta_of in *.
  pose proof (makeWritable_ret_mem _ _ _ _ _ Hmw) as Hmem.
  unfold applyRelocV2, bind, get, modify, ret. rewrite Hsize.
  destruct Hbits as [E | [E | E]]; subst bits; rewrite Hmw;
    cbn [negb Z.eqb Pos.eqb kRelocFlagSize8 kRelocFlagSize16
         kRelocFlagSize32 kRelocFlagSize64];
    (eexists; split; [reflexivity |]); cbn [mem set_mem]; rewrite Hmem;
    unfold load_signed, load_i8, load_i16, load_i64.
  - change (Z.to_nat (8 / 8)) with 1%nat. rewrite load_le_store_le.
    change (256 ^ Z.of_nat 1) with (2 ^ 8).
    rewrite swrap_mod, swrap_idem, swrap_add_swrap. reflexivity.
  - change (Z.to_nat (16 / 8)) with 2%nat. rewrite load_le_store_le.
    change (256 ^ Z.of_nat 2) with (2 ^ 16).
    rewrite swrap_mod, swrap_idem, swrap_add_swrap. reflexivity.
  - change (Z.to_nat (64 / 8)) with 8%nat. rewrite load_le_store_le.
    change (256 ^ Z.of_nat 8) with (2 ^ 64).
    rewrite swrap_mod, swrap_idem. reflexivity.
Qed.

(** X9.  An entry whose size class is none of 8, 16, 32 and 64 is never
    applied: [applyRelocV2] goes through [makeWritable] for
    [(base + target, size / 8)] -- which may add a tracking record and
    change the page protection, or end the process when the table is full
    -- and then returns [false] in the state [makeWritable] left, without
    reading or writing the target. *)
Theorem applyRelocV2_unknown_size (base : Z) (reloc : PseudoRelocV2)
    (w : World) :
  Z.land (v2_flags reloc) kRelocFlagSizeMask <> kRelocFlagSize8 ->
  Z.land (v2_flags reloc) kRelocFlagSizeMask <> kRelocFlagSize16 ->
  Z.land (v2_flags reloc) kRelocFlagSizeMask <> kRelocFlagSize32 ->
  Z.land (v2_flags reloc) kRelocFlagSizeMask <> kRelocFlagSize64 ->
  applyRelocV2 arch base reloc w
  = match makeWritable (targetAddr_of arch base reloc)
            (Z.land (v2_flags reloc) kRelocFlagSizeMask / 8) w with
    | Ret _ w1 => Ret false w1
    | Terminated e w1 => Terminated e w1
    end.
Proof.
  intros N8 N16 N32 N64.
  unfold applyRelocV2, targetAddr_of, bind, get, ret.
  destruct (makeWritable _ _ w) as [ok w1 | e w1]; [| reflexivity].
  destruct ok; cbn [negb]; [| reflexivity].
  apply Z.eqb_neq in N8, N16, N32, N64. rewrite N8, N16, N32, N64.
  reflexivity.
Qed.

(** X10.  The V2 loop tests only where an entry starts: a table whose
    last entry starts before [relocEnd] but is cut short by it is still
    processed as a whole entry, read from the twelve bytes at [reloc]. *)
Theorem relocLoopV2_trailing_fragment
    (base reloc relocEnd : Z) (w : World) :
  reloc < relocEnd <= reloc + sizeof_PseudoRelocV2 ->
  relocLoopV2 arch (Z.to_nat (relocEnd - reloc)) base reloc relocEnd w
  = match applyRelocV2 arch base (load_PseudoRelocV2 (mem w) reloc) w with
    | Ret _ w' => Ret tt w'
    | Terminated e w' => Terminated e w'
    end.
Proof.
  intros H. rewrite relocLoopV2_unfold.
  replace (reloc <? relocEnd) with true by (symmetry; apply Z.ltb_lt; lia).
  destruct (applyRelocV2 arch base _ w) as [b w' | e w']; [| reflexivity].
  rewrite relocLoopV2_unfold.
  replace (reloc + sizeof_PseudoRelocV2 <? relocEnd) with false
    by (symmetry; apply Z.ltb_ge; lia).
  reflexivity.
Qed.

(** X11.  A pass that starts with no tracked record and returns leaves no
    tracked record: the next pass starts with all 64 slots free. *)
Theorem doPseudoReloc_leaves_table_empty
    (start end_ base : Z) (w w' : World) :
  g_numModifiedSections w = 0 ->
  doPseudoReloc arch start end_ base w = Ret tt w' ->
  g_numModifiedSections w' = 0.
Proof.
  intros H0. unfold doPseudoReloc.
  destruct (end_ <=? start).
  { unfold ret. intros H. inversion H. subst. exact H0. }
  unfold bind at 1. unfold get.
  destruct ((load_u32 (mem w) start =? 0)
            && (load_u32 (mem w) (start + 4) =? 0)).
  - destruct (negb (load_u32 (mem w) (start + 8) =? 1)).
    { unfold ret. intros H. inversion H. subst. exact H0. }
    unfold bind.
    destruct (relocLoopV2 arch _ base _ end_ w) as [[] w2 | e w2];
      [| discriminate].
    destruct (restoreProtections_spec w2) as [w3 [Hr [_ [Hn _]]]].
    rewrite Hr. intros H. inversion H. subst. exact Hn.
  - unfold bind.
    destruct (relocLoopV1 arch _ base _ end_ w) as [[] w2 | e w2];
      [| discriminate].
    destruct (restoreProtections_spec w2) as [w3 [Hr [_ [Hn _]]]].
    rewrite Hr. intros H. inversion H. subst. exact Hn.
Qed.

(** X12.  [getWritableProtection] only ever answers [PAGE_READWRITE] or
    [PAGE_EXECUTE_READWRITE], and asking again about its own answer gives
    the same answer: a page already made writable is asked to keep the
    protection it has. *)
Theorem getWritableProtection_stable (p : Z) :
  (getWritableProtection p = kPageReadwrite
   \/ getWritableProtection p = kPageExecuteReadwrite)
  /\ getWritableProtection (getWritableProtection p) = getWritableProtection p.
Proof.
  unfold getWritableProtection. destruct (negb _); split; auto.
Qed.

End PseudoRelocFurther.

Section CookieFurther.

Context {OS : MemoryProtection} {P : Program}.
Variable arch : Arch.

(** ** Ranges of the bit operations *)

Lemma log2_below (a n : Z) : 0 < n -> 0 <= a < 2 ^ n -> Z.log2 a < n.
Proof.
  intros Hn [H0 Ha]. destruct (Z.eq_dec a 0) as [E | E].
  - subst. cbn. exact Hn.
  - apply Z.log2_lt_pow2; lia.
Qed.

Lemma below_log2 (a n : Z) : 0 <= a -> Z.log2 a < n -> a < 2 ^ n.
Proof.
  intros H0 Hl. destruct (Z.eq_dec a 0) as [E | E].
  - subst. cbn in Hl. apply Z.pow_pos_nonneg; lia.
  - apply Z.log2_lt_pow2; lia.
Qed.

Lemma lxor_range (n a b : Z) :
  0 < n -> 0 <= a < 2 ^ n -> 0 <= b < 2 ^ n -> 0 <= Z.lxor a b < 2 ^ n.
Proof.
  intros Hn Ha Hb.
  assert (H0 : 0 <= Z.lxor a b) by (apply Z.lxor_nonneg; lia).
  split; [exact H0 |]. apply below_log2; [exact H0 |].
  pose proof (Z.log2_lxor a b (proj1 Ha) (proj1 Hb)).
  pose proof (log2_below a n Hn Ha). pose proof (log2_below b n Hn Hb). lia.
Qed.

Lemma lor_range (n a b : Z) :
  0 < n -> 0 <= a < 2 ^ n -> 0 <= b < 2 ^ n -> 0 <= Z.lor a b < 2 ^ n.
Proof.
  intros Hn Ha Hb.
  assert (H0 : 0 <= Z.lor a b) by (apply Z.lor_nonneg; lia).
  split; [exact H0 |]. apply below_log2; [exact H0 |].
  pose proof (Z.log2_lor a b (proj1 Ha) (proj1 Hb)).
  pose proof (log2_below a n Hn Ha). pose proof (log2_below b n Hn Hb). lia.
Qed.

Lemma uwrap_range (n z : Z) : 0 <= n -> 0 <= uwrap n z < 2 ^ n.
Proof.
  intros Hn. unfold uwrap. apply Z.mod_pos_bound.
  apply Z.pow_pos_nonneg; lia.
Qed.

(** The gathered entropy fits the cookie; on the 64-bit targets it fits
    48 bits. *)
Lemma gather_entropy_range (e : Entropy) :
  0 <= gather_entropy arch e < 2 ^ (if is64 arch then 48 else 32).
Proof.
  unfold gather_entropy. destruct (is64 arch).
  - change 0x0000FFFFFFFFFFFF with (Z.ones 48).
    rewrite Z.land_ones by lia. apply Z.mod_pos_bound. lia.
  - repeat apply lxor_range; try lia; apply uwrap_range; lia.
Qed.

Lemma validate_cookie_range (c : Z) :
  0 <= c < 2 ^ (if is64 arch then 48 else 32) ->
  0 <= validate_cookie arch c < 2 ^ (if is64 arch then 48 else 32).
Proof.
  intros Hc. unfold validate_cookie, DefaultSecurityCookie.
  destruct (is64 arch).
  - destruct (c =? _); [lia |]. destruct (c =? 0); lia.
  - destruct (c =? _); [lia |].
    destruct (Z.land c 0xFFFF0000 =? 0); [| exact Hc].
    apply lor_range; [lia | exact Hc | apply uwrap_range; lia].
Qed.

Lemma validate_cookie_nonzero (c : Z) :
  is64 arch = true -> validate_cookie arch c <> 0.
Proof.
  intros H64. unfold validate_cookie, DefaultSecurityCookie. rewrite H64.
  destruct (Z.eqb_spec c 0x00002B992DDFA232); [lia |].
  destruct (Z.eqb_spec c 0); [lia | assumption].
Qed.

Lemma cookie_not_involutive (x : Z) :
  0 <= x < 2 ^ cookie_bits arch ->
  cookie_not arch (cookie_not arch x) = x.
Proof.
  intros Hx. unfold cookie_not, uwrap, Z.lnot.
  assert (Hp : 0 < 2 ^ cookie_bits arch) by lia.
  replace (Z.pred (- x)) with ((2 ^ cookie_bits arch - 1 - x)
                               + (-1) * 2 ^ cookie_bits arch) by lia.
  rewrite Z_mod_plus_full. rewrite (Z.mod_small (2 ^ cookie_bits arch - 1 - x))
    by lia.
  replace (Z.pred (- (2 ^ cookie_bits arch - 1 - x)))
    with (x + (-1) * 2 ^ cookie_bits arch) by lia.
  rewrite Z_mod_plus_full. apply Z.mod_small. exact Hx.
Qed.

(** X13.  A call that finds the cookie not yet initialized stores a value
    that fits [CookieType], differs from the default, has its top 16 bits
    clear and is not zero on the 64-bit targets, and has a non-zero high
    word on the 32-bit targets; the complement stored with it gives the
    cookie back when complemented again. *)
Theorem security_init_cookie_fresh_value (w : World) :
  cookie_already_initialized arch (__security_cookie w) = false ->
  __security_cookie (world_of (__security_init_cookie arch w))
  <> DefaultSecurityCookie arch
  /\ 0 <= __security_cookie (world_of (__security_init_cookie arch w))
     < 2 ^ cookie_bits arch
  /\ (is64 arch = true ->
      __security_cookie (world_of (__security_init_cookie arch w)) <> 0
      /\ __security_cookie (world_of (__security_init_cookie arch w))
         < 2 ^ 48)
  /\ (is64 arch = false ->
      Z.land (__security_cookie (world_of (__security_init_cookie arch w)))
        0xFFFF0000 <> 0)
  /\ cookie_not arch
       (__security_cookie_complement
          (world_of (__security_init_cookie arch w)))
     = __security_cookie (world_of (__security_init_cookie arch w)).
Proof.
  intros Hfresh. unfold __security_init_cookie, bind, get, modify.
  rewrite Hfresh. cbn [world_of __security_cookie
                       __security_cookie_complement set_cookie
                       set_cookie_complement].
  set (c := validate_cookie arch (gather_entropy arch (entropy w))).
  pose proof (validate_cookie_range _ (gather_entropy_range (entropy w)))
    as Hr. fold c in Hr.
  pose proof (validate_cookie_initialized arch
                (gather_entropy arch (entropy w))) as Hi. fold c in Hi.
  unfold cookie_already_initialized in Hi.
  apply andb_prop in Hi. destruct Hi as [Hd Hh].
  apply Bool.negb_true_iff, Z.eqb_neq in Hd.
  assert (Hrange : 0 <= c < 2 ^ cookie_bits arch).
  { unfold cookie_bits. destruct (is64 arch); lia. }
  split; [exact Hd |]. split; [exact Hrange |]. split; [| split].
  - intros H64. rewrite H64 in Hr. split; [| lia].
    apply validate_cookie_nonzero. exact H64.
  - intros H32. subst c. unfold validate_cookie. rewrite H32.
    destruct (Z.eqb_spec (gather_entropy arch (entropy w))
                (DefaultSecurityCookie arch)) as [E | E].
    + unfold DefaultSecurityCookie. rewrite H32. discriminate.
    + destruct (Z.eqb_spec (Z.land (gather_entropy arch (entropy w))
                              0xFFFF0000) 0) as [E0 | E0]; [| exact E0].
      apply bit16_high_word. apply perturbed_bit16.
  - apply cookie_not_involutive. exact Hrange.
Qed.

(** X14.  After any call to [__security_init_cookie], checking the stored
    cookie returns, and checking the default value -- what a frame entered
    before the initialization would hold -- ends the process by
    [__fastfail]. *)
Theorem security_check_after_init (w : World) :
  __security_check_cookie
    (__security_cookie (world_of (__security_init_cookie arch w)))
    (world_of (__security_init_cookie arch w))
  = Ret tt (world_of (__security_init_cookie arch w))
  /\ __security_check_cookie (DefaultSecurityCookie arch)
       (world_of (__security_init_cookie arch w))
     = Terminated (FastFail FastFailStackCookieCheckFailure)
         (world_of (__security_init_cookie arch w)).
Proof.
  destruct (security_init_cookie_once arch w) as [w' [Hw' [_ [Hi _]]]].
  rewrite Hw'. cbn [world_of].
  unfold cookie_already_initialized in Hi. apply andb_prop in Hi.
  destruct Hi as [Hd _].
  unfold __security_check_cookie, __report_gsfailure, __fastfail, terminate,
    bind, get, ret.
  rewrite Z.eqb_refl. split; [reflexivity |].
  rewrite Z.eqb_sym. destruct (__security_cookie w' =? _);
    [discriminate Hd | reflexivity].
Qed.

End CookieFurther.

Section InitFurther.

Context {OS : MemoryProtection} {P : Program}.
Variable arch : Arch.

(** ** [initterm] and [initterm_e] *)

Lemma slot_calls_as_filter (F : Type) (k : SectionKind)
    (slots : list (option F)) (i : nat) :
  slot_calls k i slots
  = map (call_slot k)
      (filter (fun j => match nth_error slots (j - i) with
                        | Some (Some _) => true
                        | _ => false
                        end)
         (seq i (length slots))).
Proof.
  revert i. induction slots as [| x rest IH]; intros i; [reflexivity |].
  cbn [length seq filter]. rewrite Nat.sub_diag. cbn [nth_error].
  assert (Hext : filter
                   (fun j => match nth_error (x :: rest) (j - i) with
                             | Some (Some _) => true
                             | _ => false
                             end) (seq (S i) (length rest))
                 = filter
                     (fun j => match nth_error rest (j - S i) with
                               | Some (Some _) => true
                               | _ => false
                               end) (seq (S i) (length rest))).
  { apply filter_ext_in. intros j Hj. apply in_seq in Hj.
    replace (j - i)%nat with (S (j - S i)) by lia. reflexivity. }
  destruct x as [f |]; cbn [slot_calls map]; rewrite Hext, <- IH;
    reflexivity.
Qed.

(** X15.  [initterm] always returns; it calls the non-null slots of the
    array, and only those, by increasing index, each on the user state the
    previous one left. *)
Theorem initterm_calls_in_array_order
    (k : SectionKind) (slots : list (option (U -> U))) (w : World) :
  exists w',
    initterm k 0 slots w = Ret tt w'
    /\ calls w'
       = calls w
         ++ map (call_slot k)
              (filter (fun j => match nth_error slots j with
                                | Some (Some _) => true
                                | _ => false
                                end)
                 (seq 0 (length slots)))
    /\ user w' = pvfv_state slots (user w).
Proof.
  rewrite initterm_run. eexists. split; [reflexivity |].
  cbn [calls user with_user_calls]. split; [| reflexivity].
  rewrite slot_calls_as_filter. do 2 f_equal.
  apply filter_ext. intros j. rewrite Nat.sub_0_r. reflexivity.
Qed.

(** X16.  [initterm_e] always returns.  It returns 0 exactly when every
    non-null slot returned 0, having called them all; otherwise it returns
    the first non-zero result and the slot that gave it is the last one
    called. *)
Theorem initterm_e_contract
    (k : SectionKind) (slots : list (option (U -> U * Z))) (w : World) :
  exists r w',
    initterm_e k 0 slots w = Ret r w'
    /\ (r = 0 <-> pifv_all_succeed slots (user w))
    /\ (r = 0 -> calls w' = calls w ++ slot_calls k 0 slots)
    /\ (r <> 0 ->
        exists pre f post,
          slots = pre ++ Some f :: post
          /\ pifv_all_succeed pre (user w)
          /\ r = snd (f (pifv_state pre (user w)))
          /\ calls w'
             = calls w ++ slot_calls k 0 pre ++ [call_slot k (length pre)]).
Proof.
  destruct (pifv_first_failure slots (user w))
    as [Hok | [pre [f [post [Hs [Hpre Hfail]]]]]].
  - rewrite initterm_e_success by exact Hok.
    eexists; eexists. split; [reflexivity |].
    split; [tauto |]. split; [reflexivity | intros H; contradiction].
  - rewrite Hs. rewrite initterm_e_failure by assumption.
    eexists; eexists. split; [reflexivity |].
    assert (Hnot : ~ pifv_all_succeed (pre ++ Some f :: post) (user w)).
    { clear Hs. revert Hpre Hfail. generalize (user w).
      induction pre as [| [g |] rest IH]; intros u Hpre Hfail Hall;
        cbn in *.
      - destruct Hall as [H0 _]. contradiction.
      - destruct Hpre as [_ Hpre]. destruct Hall as [_ Hall].
        exact (IH _ Hpre Hfail Hall).
      - exact (IH _ Hpre Hfail Hall). }
    split; [split; [intros E; contradiction | intros H; contradiction] |].
    split; [intros E; contradiction |].
    intros _. exists pre, f, post. cbn [calls with_user_calls Nat.add].
    auto.
Qed.

(** ** [_CRT_INIT] and [_cexit] *)

Lemma bind_Ret (A B : Type) (m : M A) (k : A -> M B) (w : World) (a : A)
    (w' : World) :
  m w = Ret a w' -> bind m k w = k a w'.
Proof. intros H. unfold bind. rewrite H. reflexivity. Qed.

(** The calls listed by [slot_calls] are slot calls. *)
Lemma in_map_iff_slot (F : Type) (k : SectionKind) (slots : list (option F))
    (i : nat) (c : Callee) :
  In c (slot_calls k i slots) ->
  match c with call_slot _ _ => True | _ => False end.
Proof.
  revert i. induction slots as [| [f |] rest IH]; intros i H; cbn in H.
  - contradiction.
  - destruct H as [H | H]; [subst; exact I | exact (IH _ H)].
  - exact (IH _ H).
Qed.

(** X17.  [_CRT_INIT] never ends the process: it returns TRUE or FALSE,
    and FALSE exactly on a process attach in which a C initializer fails.
    In that case no constructor has been called.  It never runs the
    pseudo-relocation step nor [_fpreset]. *)
Theorem CRT_INIT_returns (hinstDLL fdwReason lpvReserved : Z) (w : World) :
  exists r w' evs,
    _CRT_INIT arch hinstDLL fdwReason lpvReserved w = Ret r w'
    /\ (r = 0 \/ r = 1)
    /\ (r = 0 <->
        fdwReason = kDllProcessAttach
        /\ ~ pifv_all_succeed xi_slots (user w))
    /\ calls w' = calls w ++ evs
    /\ ~ In call_runPseudoRelocator evs
    /\ ~ In call_fpreset evs
    /\ (r = 0 -> forall j, ~ In (call_slot XC j) evs).
Proof.
  unfold _CRT_INIT.
  destruct (Z.eqb_spec fdwReason kDllProcessAttach) as [Ea | Ea].
  - destruct (securityInitCookie_calls arch w) as [w1 [Hs [Hc1 Hu1]]].
    unfold bind at 1. rewrite Hs.
    destruct (pifv_first_failure xi_slots (user w))
      as [Hok | [pre [f [post [Hxi [Hpre Hfail]]]]]].
    + unfold bind at 1.
      rewrite initterm_e_success by (rewrite Hu1; exact Hok).
      cbn [negb Z.eqb]. unfold bind, ret. rewrite initterm_run.
      eexists; eexists;
        exists ([call_securityInitCookie] ++ slot_calls XI 0 xi_slots
                ++ slot_calls XC 0 xc_slots).
      split; [reflexivity |]. split; [right; reflexivity |].
      split; [split; [discriminate | intros [_ H]; contradiction] |].
      split.
      { cbn [calls with_user_calls]. rewrite Hc1, <- !app_assoc.
        reflexivity. }
      split; [| split; [| discriminate]].
      * rewrite !in_app_iff. cbn.
        intros [[H | []] | [H | H]]; try discriminate H;
          apply in_map_iff_slot in H; exact H.
      * rewrite !in_app_iff. cbn.
        intros [[H | []] | [H | H]]; try discriminate H;
          apply in_map_iff_slot in H; exact H.
    + unfold bind at 1. rewrite Hxi.
      rewrite initterm_e_failure by (rewrite Hu1; assumption).
      rewrite Hu1.
      replace (negb (snd (f (pifv_state pre (user w))) =? 0)) with true
        by (symmetry; apply Bool.negb_true_iff, Z.eqb_neq; exact Hfail).
      unfold ret.
      eexists; eexists;
        exists ([call_securityInitCookie] ++ slot_calls XI 0 pre
                ++ [call_slot XI (length pre)]).
      split; [reflexivity |]. split; [left; reflexivity |].
      assert (Hnot : ~ pifv_all_succeed xi_slots (user w)).
      { rewrite Hxi. clear Hxi. revert Hpre Hfail. generalize (user w).
        induction pre as [| [g |] rest IH]; intros u Hp Hf Hall; cbn in *.
        - destruct Hall as [H0 _]. contradiction.
        - destruct Hp as [_ Hp]. destruct Hall as [_ Hall].
          exact (IH _ Hp Hf Hall).
        - exact (IH _ Hp Hf Hall). }
      split;
        [split; [intros _; split; [exact Ea | rewrite <- Hxi; exact Hnot]
                | reflexivity] |].
      split.
      { cbn [calls with_user_calls Nat.add]. rewrite Hc1, <- !app_assoc.
        reflexivity. }
      split; [| split].
      * rewrite !in_app_iff. cbn.
        intros [[H | []] | [H | [H | []]]]; try discriminate H;
          apply in_map_iff_slot in H; exact H.
      * rewrite !in_app_iff. cbn.
        intros [[H | []] | [H | [H | []]]]; try discriminate H;
          apply in_map_iff_slot in H; exact H.
      * intros _ j. rewrite !in_app_iff. cbn.
        intros [[H | []] | [H | [H | []]]]; try discriminate H.
        apply slot_calls_index in H. destruct H as [H _]. discriminate H.
  - assert (Hclean :
              exists w' evs,
                (if fdwReason =? kDllProcessDetach
                 then if lpvReserved =? 0
                      then bind (CRT_CXA_FINALIZE_CALL dso_handle)
                             (fun _ => bind runPreterminators
                                         (fun _ => runTerminators))
                      else ret tt
                 else ret tt) w = Ret tt w'
                /\ calls w' = calls w ++ evs
                /\ ~ In call_runPseudoRelocator evs
                /\ ~ In call_fpreset evs).
    { destruct (fdwReason =? kDllProcessDetach);
        [destruct (lpvReserved =? 0) |];
        try (exists w, []; rewrite app_nil_r; cbn; tauto).
      unfold CRT_CXA_FINALIZE_CALL, runPreterminators, runTerminators.
      destruct cxa_finalize as [fin |];
        unfold bind, record_call, modify, ret;
        repeat (rewrite initterm_run; cbv beta iota);
        eexists;
        [ exists ([call_cxa_finalize dso_handle] ++ slot_calls XP 0 xp_slots
                  ++ slot_calls XT 0 xt_slots)
        | exists (slot_calls XP 0 xp_slots ++ slot_calls XT 0 xt_slots) ];
        (split; [reflexivity |]);
        (split; [cbn; rewrite <- !app_assoc; reflexivity |]);
        split; rewrite !in_app_iff; cbn; intros H;
        repeat match goal with
               | H : _ \/ _ |- _ => destruct H as [H | H]
               end;
        try discriminate H; try contradiction;
        apply in_map_iff_slot in H; exact H. }
    destruct Hclean as [w' [evs [Hrun [Hc [Hn1 Hn2]]]]].
    exists 1, w', evs.
    split; [rewrite (bind_Ret _ _ _ _ _ _ _ Hrun); reflexivity |].
    split; [right; reflexivity |].
    split; [split; [discriminate | intros [H _]; contradiction] |].
    split; [exact Hc |]. split; [exact Hn1 |]. split; [exact Hn2 |].
    discriminate.
Qed.

End InitFurther.

Section StartupFurther.

Context {OS : MemoryProtection} {P : Program}.
Variable arch : Arch.

Lemma bind_bind_ret (A B C : Type) (m : M A) (b : B) (k : B -> M C)
    (w : World) :
  bind (bind m (fun _ => ret b)) k w = bind m (fun _ => k b) w.
Proof. unfold bind, ret. destruct (m w); reflexivity. Qed.

(** X18.  [_cexit] returns to its caller after [__cxa_finalize(nullptr)]
    (when that weak symbol is linked), the pre-terminators and the
    terminators, in this order.  Nothing guards it: a second call makes the
    same calls again. *)
Theorem cexit_returns_and_is_not_guarded (w : World) :
  exists w1 w2,
    _cexit w = Ret tt w1
    /\ calls w1
       = calls w
         ++ match cxa_finalize with
            | Some _ => [call_cxa_finalize 0]
            | None => []
            end
         ++ slot_calls XP 0 xp_slots ++ slot_calls XT 0 xt_slots
    /\ _cexit w1 = Ret tt w2
    /\ calls w2
       = calls w1
         ++ match cxa_finalize with
            | Some _ => [call_cxa_finalize 0]
            | None => []
            end
         ++ slot_calls XP 0 xp_slots ++ slot_calls XT 0 xt_slots.
Proof.
  assert (Hone : forall v,
             exists v1,
               _cexit v = Ret tt v1
               /\ calls v1
                  = calls v
                    ++ match cxa_finalize with
                       | Some _ => [call_cxa_finalize 0]
                       | None => []
                       end
                    ++ slot_calls XP 0 xp_slots ++ slot_calls XT 0 xt_slots).
  { intros v.
    unfold _cexit, CRT_CXA_FINALIZE_CALL, runPreterminators, runTerminators.
    destruct cxa_finalize as [fin |];
      unfold bind, record_call, modify, ret;
      repeat (rewrite initterm_run; cbv beta iota);
      eexists; (split; [reflexivity |]); cbn; rewrite <- ?app_assoc;
      reflexivity. }
  destruct (Hone w) as [w1 [H1 Hc1]]. destruct (Hone w1) as [w2 [H2 Hc2]].
  exists w1, w2. auto.
Qed.

(** X19.  On [DLL_PROCESS_ATTACH] the entry point runs [commonInit] first.
    If that ends the process the user's [DllMain] is never called.
    Otherwise [DllMain] is called once and its result returned;
    [DisableThreadLibraryCalls] follows exactly when [DllMain] succeeded and
    [__crt_enable_thread_notifications] is zero.  A failing [DllMain] is
    followed by no clean-up call. *)
Theorem DllMainCRTStartup_process_attach
    (hinstDLL lpvReserved : Z) (w : World) :
  (forall e w1,
      commonInit arch w = Terminated e w1 ->
      _DllMainCRTStartup arch hinstDLL kDllProcessAttach lpvReserved w
      = Terminated e w1)
  /\ (forall w1,
         commonInit arch w = Ret tt w1 ->
         _DllMainCRTStartup arch hinstDLL kDllProcessAttach lpvReserved w
         = Ret (snd (DllMain hinstDLL kDllProcessAttach lpvReserved (user w1)))
             (with_user_calls
                (fst (DllMain hinstDLL kDllProcessAttach lpvReserved
                        (user w1)))
                (calls w1
                 ++ [call_DllMain hinstDLL kDllProcessAttach lpvReserved]
                 ++ (if negb (snd (DllMain hinstDLL kDllProcessAttach
                                     lpvReserved (user w1)) =? 0)
                        && (crt_enable_thread_notifications =? 0)
                     then [call_DisableThreadLibraryCalls hinstDLL]
                     else []))
                w1)).
Proof.
  unfold _DllMainCRTStartup.
  change (kDllProcessAttach =? kDllProcessAttach) with true. cbv iota.
  split.
  - intros e w1 H. unfold bind at 1. rewrite H. reflexivity.
  - intros w1 H. unfold bind at 1. rewrite H.
    unfold call_user_DllMain, DisableThreadLibraryCalls, bind, record_call,
      modify, get, ret.
    unfold with_user_calls, set_user, add_call. cbn.
    destruct (negb _ && _); cbn; rewrite <- ?app_assoc; try rewrite app_nil_r;
      reflexivity.
Qed.

(** X20.  For every reason other than [DLL_PROCESS_ATTACH] -- process
    detach and the two thread notifications -- the DLL entry point does
    what [_CRT_INIT] does for that reason and then calls the user's
    [DllMain], whose result it returns. *)
Theorem DllMainCRTStartup_is_CRT_INIT_then_DllMain
    (hinstDLL fdwReason lpvReserved : Z) (w : World) :
  fdwReason <> kDllProcessAttach ->
  _DllMainCRTStartup arch hinstDLL fdwReason lpvReserved w
  = bind (_CRT_INIT arch hinstDLL fdwReason lpvReserved)
      (fun _ => call_user_DllMain hinstDLL fdwReason lpvReserved) w.
Proof.
  intros Hr. unfold _DllMainCRTStartup, _CRT_INIT.
  destruct (Z.eqb_spec fdwReason kDllProcessAttach) as [E | _];
    [contradiction |].
  symmetry.
  exact (bind_bind_ret _ _ _ _ 1
           (fun _ => call_user_DllMain hinstDLL fdwReason lpvReserved) w).
Qed.

(** ** The one-time guards, for one caller at a time *)

Lemma pei386_runtime_relocator_completes (w w' : World) :
  _pei386_runtime_relocator arch w = Ret tt w' ->
  g_pseudoRelocInitOnce w' = INIT_ONCE_COMPLETE.
Proof.
  unfold _pei386_runtime_relocator, InitOnceExecuteOnce, pseudoRelocCallback,
    bind, get, ret, modify.
  destruct (g_pseudoRelocInitOnce w) eqn:Hg.
  - destruct (doPseudoReloc arch _ _ _ w) as [[] w2 | e w2];
      [| discriminate].
    intros H. inversion H. reflexivity.
  - intros H. inversion H. subst. exact Hg.
Qed.

Lemma pei386_runtime_relocator_completed (w : World) :
  g_pseudoRelocInitOnce w = INIT_ONCE_COMPLETE ->
  _pei386_runtime_relocator arch w = Ret tt w.
Proof.
  intros Hg.
  unfold _pei386_runtime_relocator, InitOnceExecuteOnce, bind, get, ret.
  rewrite Hg. reflexivity.
Qed.

(** X21.  Once [_pei386_runtime_relocator] has returned, a further call
    changes nothing: no relocation is applied a second time, no page
    protection is touched, nothing is logged. *)
Theorem pei386_runtime_relocator_runs_once (w w1 : World) :
  _pei386_runtime_relocator arch w = Ret tt w1 ->
  _pei386_runtime_relocator arch w1 = Ret tt w1.
Proof.
  intros H. apply pei386_runtime_relocator_completed.
  exact (pei386_runtime_relocator_completes w w1 H).
Qed.

Lemma commonInitCallback_reloc_done (w : World) (b : bool) (w' : World) :
  commonInitCallback arch w = Ret b w' ->
  g_pseudoRelocInitOnce w' = INIT_ONCE_COMPLETE.
Proof.
  unfold commonInitCallback, runPseudoRelocator.
  unfold bind at 1. unfold bind at 1. unfold record_call, modify.
  destruct (_pei386_runtime_relocator arch (add_call call_runPseudoRelocator w))
    as [[] w1 | e w1] eqn:Hrel; [| discriminate].
  apply pei386_runtime_relocator_completes in Hrel.
  destruct (securityInitCookie_calls arch w1) as [w2 [Hs _]].
  assert (Hg2 : g_pseudoRelocInitOnce w2 = INIT_ONCE_COMPLETE).
  { revert Hs. unfold securityInitCookie, __security_init_cookie, bind,
      record_call, modify, get. cbn.
    destruct (cookie_already_initialized arch (__security_cookie w1));
      intros Hs; inversion Hs; cbn; exact Hrel. }
  unfold bind at 1. rewrite Hs. unfold bind at 1.
  unfold _fpreset, record_call, modify.
  destruct (pifv_first_failure xi_slots (user (add_call call_fpreset w2)))
    as [Hok | [pre [f [post [Hxi [Hpre Hfail]]]]]].
  - unfold bind at 1. rewrite initterm_e_success by exact Hok.
    cbn [negb Z.eqb]. unfold bind, ret. rewrite initterm_run.
    intros H. inversion H. cbn. exact Hg2.
  - unfold bind at 1. rewrite Hxi.
    rewrite initterm_e_failure by assumption.
    replace (negb (snd (f (pifv_state pre
                             (user (add_call call_fpreset w2)))) =? 0))
      with true
      by (symmetry; apply Bool.negb_true_iff, Z.eqb_neq; exact Hfail).
    unfold bind, fatalError, _amsg_exit, terminate. discriminate.
Qed.

(** X22.  Once [commonInit] has returned, a further call changes nothing:
    no initializer and no constructor runs a second time.  If the first
    call was the one that ran the initialization, a later direct call of
    [_pei386_runtime_relocator] changes nothing either. *)
Theorem commonInit_runs_once (w w1 : World) :
  commonInit arch w = Ret tt w1 ->
  commonInit arch w1 = Ret tt w1
  /\ (g_commonInitOnce w = INIT_ONCE_STATIC_INIT ->
      _pei386_runtime_relocator arch w1 = Ret tt w1).
Proof.
  intros H. split.
  - apply commonInit_completed. exact (commonInit_completes arch w w1 H).
  - intros Hg. apply pei386_runtime_relocator_completed.
    revert H. unfold commonInit, InitOnceExecuteOnce, bind, get, ret, modify.
    rewrite Hg.
    destruct (commonInitCallback arch w) as [b w2 | e w2] eqn:Hcb;
      [| discriminate].
    rewrite (commonInitCallback_returns_TRUE arch w b w2 Hcb).
    intros H. inversion H. cbn.
    exact (commonInitCallback_reloc_done w b w2 Hcb).
Qed.

End StartupFurther.

(** ** The command line handed to [WinMain] *)

Lemma skipProgramName_suffix (l : list Ascii.ascii) (q : bool) :
  exists skipped, l = skipped ++ skipProgramName l q.
Proof.
  revert q. induction l as [| c rest IH]; intros q.
  - exists []. reflexivity.
  - cbn [skipProgramName]. destruct (Ascii.eqb c cmd_Quote).
    + destruct (IH (negb q)) as [s Hs]. exists (c :: s). cbn.
      rewrite <- Hs. reflexivity.
    + destruct (is_blank c && negb q).
      * exists []. reflexivity.
      * destruct (IH q) as [s Hs]. exists (c :: s). cbn.
        rewrite <- Hs. reflexivity.
Qed.

Lemma skipBlanks_suffix (l : list Ascii.ascii) :
  exists skipped,
    l = skipped ++ skipBlanks l /\ forallb is_blank skipped = true.
Proof.
  induction l as [| c rest IH].
  - exists []. split; reflexivity.
  - cbn [skipBlanks]. destruct (is_blank c) eqn:Hc.
    + destruct IH as [s [Hs Hb]]. exists (c :: s). cbn. rewrite Hc, Hb.
      rewrite <- Hs. split; reflexivity.
    + exists []. split; reflexivity.
Qed.

Lemma skipBlanks_head (l : list Ascii.ascii) :
  match skipBlanks l with
  | [] => True
  | c :: _ => is_blank c = false
  end.
Proof.
  induction l as [| c rest IH]; [exact I |].
  cbn [skipBlanks]. destruct (is_blank c) eqn:Hc; [exact IH | exact Hc].
Qed.

Lemma is_blank_not_quote (c : Ascii.ascii) :
  is_blank c = true -> Ascii.eqb c cmd_Quote = false.
Proof.
  unfold is_blank. intros H. apply Bool.orb_true_iff in H.
  destruct H as [H | H]; apply Ascii.eqb_eq in H; subst; reflexivity.
Qed.

Lemma skipProgramName_plain (pre rest : list Ascii.ascii) (q : bool) :
  forallb plain_char pre = true ->
  skipProgramName (pre ++ rest) q = skipProgramName rest q.
Proof.
  induction pre as [| c pre IH]; intros H; [reflexivity |].
  cbn in H. apply andb_prop in H. destruct H as [Hc Hpre].
  unfold plain_char in Hc. apply andb_prop in Hc. destruct Hc as [Hq Hb].
  apply Bool.negb_true_iff in Hq, Hb.
  cbn [app skipProgramName]. rewrite Hq, Hb. cbn [andb]. exact (IH Hpre).
Qed.

Lemma skipProgramName_quoted (name rest : list Ascii.ascii) :
  forallb not_quote name = true ->
  skipProgramName (name ++ rest) true = skipProgramName rest true.
Proof.
  induction name as [| c name IH]; intros H; [reflexivity |].
  cbn in H. apply andb_prop in H. destruct H as [Hc Hname].
  unfold not_quote in Hc. apply Bool.negb_true_iff in Hc.
  cbn [app skipProgramName]. rewrite Hc. cbn [negb].
  rewrite Bool.andb_false_r. exact (IH Hname).
Qed.

Lemma skipProgramName_at_blank (c : Ascii.ascii) (rest : list Ascii.ascii) :
  is_blank c = true ->
  skipProgramName (c :: rest) false = c :: rest.
Proof.
  intros Hc. cbn [skipProgramName].
  rewrite (is_blank_not_quote c Hc), Hc. reflexivity.
Qed.

Lemma skipBlanks_blanks (blanks args : list Ascii.ascii) :
  forallb is_blank blanks = true ->
  skipBlanks (blanks ++ args) = skipBlanks args.
Proof.
  induction blanks as [| c blanks IH]; intros H; [reflexivity |].
  cbn in H. apply andb_prop in H. destruct H as [Hc Hb].
  cbn [app skipBlanks]. rewrite Hc. exact (IH Hb).
Qed.

Lemma skipBlanks_no_blank (args : list Ascii.ascii) :
  match args with [] => True | c :: _ => is_blank c = false end ->
  skipBlanks args = args.
Proof.
  destruct args as [| c rest]; [reflexivity |].
  intros H. cbn [skipBlanks]. rewrite H. reflexivity.
Qed.

(** After the program name: the blanks and the arguments, or nothing. *)
Lemma skip_tail (blanks args : list Ascii.ascii) :
  forallb is_blank blanks = true ->
  match args with [] => True | c :: _ => is_blank c = false end ->
  blanks <> [] \/ args = [] ->
  skipBlanks (skipProgramName (blanks ++ args) false) = args.
Proof.
  intros Hb Ha Hne. destruct blanks as [| b blanks].
  - destruct Hne as [Hne | Hne]; [contradiction | subst]. reflexivity.
  - cbn in Hb. apply andb_prop in Hb. destruct Hb as [Hb0 Hb].
    cbn [app]. rewrite skipProgramName_at_blank by exact Hb0.
    cbn [skipBlanks]. rewrite Hb0.
    rewrite skipBlanks_blanks by exact Hb. apply skipBlanks_no_blank.
    exact Ha.
Qed.

(** X23.  The pointer [getWinMainCmdLineImpl] returns points into the
    string it was given (what it returns is a suffix of it) and never at a
    space or a tab. *)
Theorem getWinMainCmdLine_is_trimmed_suffix (cmdline : list Ascii.ascii) :
  (exists skipped, cmdline = skipped ++ getWinMainCmdLineImpl cmdline)
  /\ match getWinMainCmdLineImpl cmdline with
     | [] => True
     | c :: _ => is_blank c = false
     end.
Proof.
  unfold getWinMainCmdLineImpl. split; [| apply skipBlanks_head].
  destruct (skipProgramName_suffix cmdline false) as [s1 H1].
  destruct (skipBlanks_suffix (skipProgramName cmdline false))
    as [s2 [H2 _]].
  exists (s1 ++ s2). rewrite <- app_assoc, <- H2. exact H1.
Qed.

(** X24.  A program name without quotes and blanks, followed by blanks and
    the arguments: the result is the arguments.  With nothing after the
    program name the result is the empty string. *)
Theorem getWinMainCmdLine_plain_program_name
    (prog blanks args : list Ascii.ascii) :
  forallb plain_char prog = true ->
  forallb is_blank blanks = true ->
  match args with [] => True | c :: _ => is_blank c = false end ->
  blanks <> [] \/ args = [] ->
  getWinMainCmdLineImpl (prog ++ blanks ++ args) = args.
Proof.
  intros Hp Hb Ha Hne. unfold getWinMainCmdLineImpl.
  rewrite skipProgramName_plain by exact Hp.
  apply skip_tail; assumption.
Qed.

(** X25.  A program name with a quoted part: blanks between the quotes do
    not end the program name; the result is the arguments that follow the
    blanks after the closing quote. *)
Theorem getWinMainCmdLine_quoted_program_name
    (pre name post blanks args : list Ascii.ascii) :
  forallb plain_char pre = true ->
  forallb not_quote name = true ->
  forallb plain_char post = true ->
  forallb is_blank blanks = true ->
  match args with [] => True | c :: _ => is_blank c = false end ->
  blanks <> [] \/ args = [] ->
  getWinMainCmdLineImpl
    (pre ++ cmd_Quote :: name ++ cmd_Quote :: post ++ blanks ++ args)
  = args.
Proof.
  intros Hpre Hname Hpost Hb Ha Hne. unfold getWinMainCmdLineImpl.
  rewrite skipProgramName_plain by exact Hpre.
  cbn [skipProgramName]. change (Ascii.eqb cmd_Quote cmd_Quote) with true.
  cbv iota. cbn [negb].
  rewrite skipProgramName_quoted by exact Hname.
  cbn [skipProgramName]. change (Ascii.eqb cmd_Quote cmd_Quote) with true.
  cbv iota. cbn [negb].
  rewrite skipProgramName_plain by exact Hpost.
  apply skip_tail; assumption.
Qed.

(** X26.  A quote that is never closed swallows the rest of the command
    line: whatever follows it, blanks and arguments included, the result
    is the empty string. *)
Theorem getWinMainCmdLine_unterminated_quote
    (pre rest : list Ascii.ascii) :
  forallb plain_char pre = true ->
  forallb not_quote rest = true ->
  getWinMainCmdLineImpl (pre ++ cmd_Quote :: rest) = [].
Proof.
  intros Hpre Hrest. unfold getWinMainCmdLineImpl.
  rewrite skipProgramName_plain by exact Hpre.
  cbn [skipProgramName]. change (Ascii.eqb cmd_Quote cmd_Quote) with true.
  cbv iota. cbn [negb].
  rewrite <- (app_nil_r rest).
  rewrite skipProgramName_quoted by exact Hrest. reflexivity.
Qed.

(* ===================================================================== *)
(** * Part IV: the properties at concrete inputs                          *)
(* ===================================================================== *)

(** Splits a conjunction of closed equations and evaluates each. *)
Ltac by_computation :=
  cbv zeta;
  repeat match goal with |- _ /\ _ => split end;
  vm_compute; reflexivity.

(** C1 as stated fails: the entry has size class 32, the value 7 at its
    target and [delta = 5] give 12, well inside 32 bits, yet [VirtualProtect]
    refuses to make the code page writable, [applyRelocV2] returns [false]
    and the target still holds 7. *)
Lemma applyRelocV2_size32_skipped_when_not_writable :
  let out := applyRelocV2 X64 0x10000 skipped_reloc skipped_world in
  Z.land (v2_flags skipped_reloc) kRelocFlagSizeMask = kRelocFlagSize32
  /\ load_i32 (mem skipped_world) (targetAddr_of X64 0x10000 skipped_reloc) = 7
  /\ delta_of X64 (mem skipped_world) 0x10000 skipped_reloc = 5
  /\ returned out = Some false
  /\ load_i32 (mem (world_of out)) (targetAddr_of X64 0x10000 skipped_reloc)
     = 7.
Proof. by_computation. Qed.

(** C1 (amended) at two concrete entries: a data-page target holding 10
    with [delta = 3], and the code-page target of the hardened process. *)
Lemma applyRelocV2_size32_adds_delta_witness :
  (exists w',
     applyRelocV2 X64 0x10000 patched_reloc overflow_world = Ret true w'
     /\ load_i32 (mem w') (targetAddr_of X64 0x10000 patched_reloc)
        = load_i32 (mem overflow_world)
            (targetAddr_of X64 0x10000 patched_reloc)
          + delta_of X64 (mem overflow_world) 0x10000 patched_reloc)
  /\ (applyRelocV2 X64 0x10000 skipped_reloc skipped_world
      = Ret false
          (world_of
             (makeWritable (targetAddr_of X64 0x10000 skipped_reloc) 4
                skipped_world))
      /\ load_i32
           (mem (world_of
                   (makeWritable (targetAddr_of X64 0x10000 skipped_reloc) 4
                      skipped_world)))
           (targetAddr_of X64 0x10000 skipped_reloc)
         = load_i32 (mem skipped_world)
             (targetAddr_of X64 0x10000 skipped_reloc)).
Proof.
  split.
  - apply (proj1 (applyRelocV2_size32_adds_delta X64 0x10000 patched_reloc
                    overflow_world writable_world eq_refl)).
    + apply returned_Ret. vm_compute. reflexivity.
    + vm_compute. split; discriminate.
  - apply (proj1 (proj2 (applyRelocV2_size32_adds_delta X64 0x10000
                           skipped_reloc skipped_world
                           (world_of
                              (makeWritable
                                 (targetAddr_of X64 0x10000 skipped_reloc) 4
                                 skipped_world))
                           eq_refl))).
    apply returned_Ret. vm_compute. reflexivity.
Defined.

(** C2 as stated fails: the first entry of the table has size class 32 and
    its sum [7 + 2^40] is outside 32 bits, yet [VirtualProtect] refuses to
    make its code page writable, so the entry is skipped; [doPseudoReloc]
    returns normally and the second entry has been applied (10 became
    13). *)
Lemma overflow_skipped_when_not_writable :
  let reloc := load_PseudoRelocV2 (mem overflow_world) 0x3000C in
  let out := doPseudoReloc X64 0x30000 0x30024 0x10000 overflow_world in
  Z.land (v2_flags reloc) kRelocFlagSizeMask = kRelocFlagSize32
  /\ load_i32 (mem overflow_world) (targetAddr_of X64 0x10000 reloc)
     + delta_of X64 (mem overflow_world) 0x10000 reloc
     = 7 + 2 ^ 40
  /\ INT32_MAX < 7 + 2 ^ 40
  /\ returned out = Some tt
  /\ load_i32 (mem (world_of out)) 0x10200 = 7
  /\ load_i32 (mem overflow_world) 0x11000 = 10
  /\ load_i32 (mem (world_of out)) 0x11000 = 13.
Proof. by_computation. Qed.

(** C2 (amended) at two concrete entries of the memory of
    [overflow_world]: an overflowing entry whose target page can be made
    writable, and the first entry of the table, whose code page cannot. *)
Lemma applyRelocV2_size32_overflow_is_fatal_witness :
  (exists w' msg,
     applyRelocV2 X64 0x10000 fatal_reloc overflow_world
     = Terminated (FastFail FastFailStackCookieCheckFailure) w'
     /\ calls w'
        = calls overflow_world
          ++ [ call_OutputDebugStringA "FATAL: CRT initialization error: ";
               call_OutputDebugStringA msg;
               call_OutputDebugStringA newline ]
     /\ (msg = reloc_overflow_msg \/ msg = too_many_sections_msg)
     /\ (forall w1,
           makeWritable (targetAddr_of X64 0x10000 fatal_reloc) 4
             overflow_world = Ret true w1 ->
           msg = reloc_overflow_msg)
     /\ (forall e w1,
           makeWritable (targetAddr_of X64 0x10000 fatal_reloc) 4
             overflow_world = Terminated e w1 ->
           msg = too_many_sections_msg)
     /\ forall p relocEnd,
          p < relocEnd ->
          load_PseudoRelocV2 (mem overflow_world) p = fatal_reloc ->
          relocLoopV2 X64 (Z.to_nat (relocEnd - p)) 0x10000 p relocEnd
            overflow_world
          = Terminated (FastFail FastFailStackCookieCheckFailure) w')
  /\ (applyRelocV2 X64 0x10000 skipped_reloc overflow_world
      = Ret false
          (world_of
             (makeWritable (targetAddr_of X64 0x10000 skipped_reloc) 4
                overflow_world))
      /\ relocLoopV2 X64 (Z.to_nat (0x30024 - 0x3000C)) 0x10000 0x3000C
           0x30024 overflow_world
         = relocLoopV2 X64
             (Z.to_nat (0x30024 - (0x3000C + sizeof_PseudoRelocV2)))
             0x10000 (0x3000C + sizeof_PseudoRelocV2) 0x30024
             (world_of
                (makeWritable (targetAddr_of X64 0x10000 skipped_reloc) 4
                   overflow_world))).
Proof.
  split.
  - apply (proj1 (applyRelocV2_size32_overflow_is_fatal X64 0x10000
                    fatal_reloc overflow_world eq_refl)).
    + intros w1 H. apply (f_equal returned) in H. vm_compute in H.
      discriminate H.
    + intros [_ H]. vm_compute in H. apply H. reflexivity.
  - destruct (proj1 (proj2 (applyRelocV2_size32_overflow_is_fatal X64
                              0x10000 skipped_reloc overflow_world eq_refl))
                (world_of
                   (makeWritable (targetAddr_of X64 0x10000 skipped_reloc) 4
                      overflow_world)))
      as [Happ Hloop].
    + apply returned_Ret. vm_compute. reflexivity.
    + split; [exact Happ |]. apply Hloop.
      * vm_compute. reflexivity.
      * vm_compute. reflexivity.
Defined.

(** C3 fails on the code.  Two V1 entries patch two words of one read-only
    page.  The pass returns normally and resets the count, both words are
    patched, but the page is left read-write: the second record saved the
    protection the first [makeWritable] had already installed, and the
    restore loop replays the records first to last. *)
Lemma doPseudoReloc_shared_page_not_restored :
  let out := doPseudoReloc X64 0x30000 0x30010 0x10000 shared_page_world in
  VirtualQuery (prot shared_page_world) 0x11000 = Some kPageReadonly
  /\ returned out = Some tt
  /\ load_u32 (mem (world_of out)) 0x11000 = 1
  /\ load_u32 (mem (world_of out)) 0x11004 = 1
  /\ g_numModifiedSections (world_of out) = 0
  /\ VirtualQuery (prot (world_of out)) 0x11000 = Some kPageReadwrite.
Proof. by_computation. Qed.

(** C6 as stated fails on x86: a cookie that differs from the default but
    has an empty high word is recomputed by the next call. *)
Lemma security_init_cookie_x86_reseeds :
  let out := __security_init_cookie X86 seeded_x86_world in
  __security_cookie seeded_x86_world = 1
  /\ DefaultSecurityCookie X86 = 0xBB40E64E
  /\ returned out = Some tt
  /\ __security_cookie (world_of out) = 0x47110000.
Proof. by_computation. Qed.

(** C8 at a concrete image: slot 2 of the C-initializer array returns 7. *)
Lemma failing_C_initializer_is_fatal_witness :
  exists w',
    commonInitCallback X64 failing_world
    = Terminated (AmsgExit (RuntimeError_code CrtInit)) w'
    /\ calls w'
       = calls (world_of (runPseudoRelocator X64 failing_world))
         ++ [call_securityInitCookie; call_fpreset]
         ++ [call_slot XI 1] ++ [call_slot XI 2]
    /\ (forall j, In (call_slot XI j) (calls w') ->
                  In (call_slot XI j) (calls failing_world) \/ (j <= 2)%nat)
    /\ (forall j, In (call_slot XC j) (calls w') ->
                  In (call_slot XC j) (calls failing_world)).
Proof.
  apply (failing_C_initializer_is_fatal X64 failing_world
           (world_of (runPseudoRelocator X64 failing_world))
           [None; Some (fun u => (mark "xi1" u, 0))]
           (fun u => (mark "xi2" u, 7))
           [Some (fun u => (mark "xi3" u, 0))]).
  - reflexivity.
  - apply returned_Ret. vm_compute. reflexivity.
  - cbn. auto.
  - cbn. discriminate.
Defined.

(** C10 as stated fails on the 64-bit targets: two fields are 32 bits wide. *)
Lemma tls_directory_x64_dword_fields :
  nth_error (CRT_IMAGE_TLS_DIRECTORY X64) 4
  = Some ("SizeOfZeroFill"%string, DWORD)
  /\ nth_error (CRT_IMAGE_TLS_DIRECTORY X64) 5
     = Some ("Characteristics"%string, DWORD)
  /\ FieldType_bits DWORD = 32
  /\ ptr_bits X64 = 64.
Proof. repeat split. Qed.

(** ** The demo image run end to end *)

(** Start-up calls every non-null slot in array order and skips the null
    ones; the markers record the same order in the user's log. *)
Example demo_startup :
  let out := commonInitCallback X64 demo_world in
  returned out = Some true
  /\ calls (world_of out)
     = [ call_runPseudoRelocator; call_securityInitCookie; call_fpreset;
         call_slot XI 1; call_slot XI 3; call_slot XC 1; call_slot XC 2 ]
  /\ user (world_of out)
     = [ "xi1"%string; "xi3"%string; "xc1"%string; "xc2"%string ].
Proof. by_computation. Qed.

(** Explicit unload: clean-up, then [DllMain]. *)
Example demo_detach_unload :
  let out := _DllMainCRTStartup X64 0x10000 kDllProcessDetach 0 demo_world in
  returned out = Some 1
  /\ calls (world_of out)
     = [ call_cxa_finalize 0x5000; call_slot XP 1; call_slot XT 1;
         call_DllMain 0x10000 kDllProcessDetach 0 ].
Proof. by_computation. Qed.

(** Process termination: [DllMain] only. *)
Example demo_detach_process_exit :
  let out := _DllMainCRTStartup X64 0x10000 kDllProcessDetach 1 demo_world in
  returned out = Some 1
  /\ calls (world_of out) = [ call_DllMain 0x10000 kDllProcessDetach 1 ].
Proof. by_computation. Qed.

(** A second sequential [commonInit] adds no call. *)
Example demo_commonInit_twice :
  let once := world_of (commonInit X64 demo_world) in
  let twice := world_of (commonInit X64 once) in
  g_commonInitOnce once = INIT_ONCE_COMPLETE
  /\ calls twice = calls once.
Proof. by_computation. Qed.

(** ** The further properties at concrete inputs *)

(** A table whose header names version 2 is left alone. *)
Lemma doPseudoReloc_nothing_to_do_witness :
  doPseudoReloc X64 0x30000 0x30018 0x10000 unknown_version_world
  = Ret tt unknown_version_world.
Proof.
  apply (doPseudoReloc_nothing_to_do X64 0x30000 0x30018 0x10000
           unknown_version_world).
  right. vm_compute. repeat split; discriminate.
Defined.

(** The 65th range of a pass. *)
Lemma makeWritable_capacity_exhausted_witness :
  exists w',
    makeWritable 0x10200 4 full_tracking_world
    = Terminated (FastFail FastFailStackCookieCheckFailure) w'
    /\ calls w'
       = calls full_tracking_world
         ++ [ call_OutputDebugStringA "FATAL: CRT initialization error: ";
              call_OutputDebugStringA
                "Pseudo-reloc: too many modified sections (limit 64)";
              call_OutputDebugStringA newline ]
    /\ prot w' = prot full_tracking_world
    /\ mem w' = mem full_tracking_world
    /\ g_numModifiedSections w' = g_numModifiedSections full_tracking_world
    /\ g_modifiedSections w' = g_modifiedSections full_tracking_world.
Proof.
  apply (makeWritable_capacity_exhausted 0x10200 4 full_tracking_world).
  - vm_compute. reflexivity.
  - vm_compute. discriminate.
Defined.

(** Two bytes inside the four that were made writable. *)
Lemma makeWritable_then_covered_witness :
  makeWritable 0x11002 2 writable_world = Ret true writable_world.
Proof.
  apply (makeWritable_then_covered 0x11000 4 0x11002 2 overflow_world
           writable_world).
  - split; [vm_compute; reflexivity | vm_compute; split; discriminate].
  - apply returned_Ret. vm_compute. reflexivity.
  - vm_compute. discriminate.
  - vm_compute. discriminate.
Defined.

(** The tracking table after the pass over the two-entry V2 table. *)
Lemma doPseudoReloc_keeps_tracking_wf_witness :
  tracking_wf
    (world_of (doPseudoReloc X64 0x30000 0x30024 0x10000 overflow_world)).
Proof.
  apply (doPseudoReloc_keeps_tracking_wf X64 0x30000 0x30024 0x10000
           overflow_world).
  split; [vm_compute; reflexivity | vm_compute; split; discriminate].
Defined.

(** The first entry of the V1 table: 0 becomes 1. *)
Lemma applyRelocV1_adds_addend_witness :
  exists w',
    applyRelocV1 X64 0x10000 first_v1_reloc shared_page_world = Ret tt w'
    /\ load_u32 (mem w') (ptr_add X64 0x10000 (v1_target first_v1_reloc))
       = (load_u32 (mem shared_page_world)
            (ptr_add X64 0x10000 (v1_target first_v1_reloc))
          + v1_addend first_v1_reloc) mod 2 ^ 32.
Proof.
  apply (applyRelocV1_adds_addend X64 0x10000 first_v1_reloc
           shared_page_world
           (world_of
              (makeWritable
                 (ptr_add X64 0x10000 (v1_target first_v1_reloc)) 4
                 shared_page_world))).
  apply returned_Ret. vm_compute. reflexivity.
Defined.

(** A one-byte entry whose delta is [2^40]: the byte is rewritten with the
    delta truncated to eight bits. *)
Lemma applyRelocV2_other_sizes_wrap_witness :
  exists w',
    applyRelocV2 X64 0x10000 byte_reloc overflow_world = Ret true w'
    /\ load_signed 8 (mem w') (targetAddr_of X64 0x10000 byte_reloc)
       = swrap 8
           (load_signed 8 (mem overflow_world)
              (targetAddr_of X64 0x10000 byte_reloc)
            + delta_of X64 (mem overflow_world) 0x10000 byte_reloc).
Proof.
  apply (applyRelocV2_other_sizes_wrap X64 8 0x10000 byte_reloc
           overflow_world
           (world_of
              (makeWritable (targetAddr_of X64 0x10000 byte_reloc) (8 / 8)
                 overflow_world))).
  - left. reflexivity.
  - reflexivity.
  - apply returned_Ret. vm_compute. reflexivity.
Defined.

(** An entry of size class 24. *)
Lemma applyRelocV2_unknown_size_witness :
  applyRelocV2 X64 0x10000 odd_size_reloc overflow_world
  = match makeWritable (targetAddr_of X64 0x10000 odd_size_reloc)
            (Z.land (v2_flags odd_size_reloc) kRelocFlagSizeMask / 8)
            overflow_world with
    | Ret _ w1 => Ret false w1
    | Terminated e w1 => Terminated e w1
    end.
Proof.
  apply (applyRelocV2_unknown_size X64 0x10000 odd_size_reloc
           overflow_world);
    vm_compute; discriminate.
Defined.

(** The table of [overflow_world] cut four bytes into its second entry. *)
Lemma relocLoopV2_trailing_fragment_witness :
  relocLoopV2 X64 (Z.to_nat (0x3001C - 0x30018)) 0x10000 0x30018 0x3001C
    overflow_world
  = match applyRelocV2 X64 0x10000
            (load_PseudoRelocV2 (mem overflow_world) 0x30018)
            overflow_world with
    | Ret _ w' => Ret tt w'
    | Terminated e w' => Terminated e w'
    end.
Proof.
  apply (relocLoopV2_trailing_fragment X64 0x10000 0x30018 0x3001C
           overflow_world).
  vm_compute. split; [reflexivity | discriminate].
Defined.

(** The first initialization of an x86 process whose loader left a cookie
    with an empty high word. *)
Lemma security_init_cookie_fresh_value_witness :
  __security_cookie (world_of (__security_init_cookie X86 seeded_x86_world))
  <> DefaultSecurityCookie X86
  /\ 0 <= __security_cookie
            (world_of (__security_init_cookie X86 seeded_x86_world))
     < 2 ^ cookie_bits X86
  /\ (is64 X86 = true ->
      __security_cookie
        (world_of (__security_init_cookie X86 seeded_x86_world)) <> 0
      /\ __security_cookie
           (world_of (__security_init_cookie X86 seeded_x86_world))
         < 2 ^ 48)
  /\ (is64 X86 = false ->
      Z.land
        (__security_cookie
           (world_of (__security_init_cookie X86 seeded_x86_world)))
        0xFFFF0000 <> 0)
  /\ cookie_not X86
       (__security_cookie_complement
          (world_of (__security_init_cookie X86 seeded_x86_world)))
     = __security_cookie
         (world_of (__security_init_cookie X86 seeded_x86_world)).
Proof.
  apply (security_init_cookie_fresh_value X86 seeded_x86_world).
  vm_compute. reflexivity.
Defined.

(** A thread notification. *)
Lemma DllMainCRTStartup_is_CRT_INIT_then_DllMain_witness :
  _DllMainCRTStartup X64 0x10000 kDllThreadAttach 0 demo_world
  = bind (_CRT_INIT X64 0x10000 kDllThreadAttach 0)
      (fun _ => call_user_DllMain 0x10000 kDllThreadAttach 0) demo_world.
Proof.
  apply (DllMainCRTStartup_is_CRT_INIT_then_DllMain X64 0x10000
           kDllThreadAttach 0 demo_world).
  vm_compute. discriminate.
Defined.

(** The image with the one-entry table: a second pass. *)
Lemma pei386_runtime_relocator_runs_once_witness :
  _pei386_runtime_relocator X64
    (world_of (_pei386_runtime_relocator X64 patch_world))
  = Ret tt (world_of (_pei386_runtime_relocator X64 patch_world)).
Proof.
  apply (pei386_runtime_relocator_runs_once X64 patch_world
           (world_of (_pei386_runtime_relocator X64 patch_world))).
  apply returned_Ret. vm_compute. reflexivity.
Defined.

(** The same image: a second initialization. *)
Lemma commonInit_runs_once_witness :
  commonInit X64 (world_of (commonInit X64 patch_world))
  = Ret tt (world_of (commonInit X64 patch_world))
  /\ (g_commonInitOnce patch_world = INIT_ONCE_STATIC_INIT ->
      _pei386_runtime_relocator X64 (world_of (commonInit X64 patch_world))
      = Ret tt (world_of (commonInit X64 patch_world))).
Proof.
  apply (commonInit_runs_once X64 patch_world
           (world_of (commonInit X64 patch_world))).
  apply returned_Ret. vm_compute. reflexivity.
Defined.

(** [app.exe], a space and a tab, then the arguments. *)
Lemma getWinMainCmdLine_plain_program_name_witness :
  getWinMainCmdLineImpl (plain_name ++ two_blanks ++ demo_args) = demo_args.
Proof.
  apply (getWinMainCmdLine_plain_program_name plain_name two_blanks
           demo_args).
  - reflexivity.
  - reflexivity.
  - reflexivity.
  - left. discriminate.
Defined.

(** A quoted path with spaces in it. *)
Lemma getWinMainCmdLine_quoted_program_name_witness :
  getWinMainCmdLineImpl
    ([] ++ cmd_Quote :: spaced_name ++ cmd_Quote :: [] ++ two_blanks
        ++ demo_args)
  = demo_args.
Proof.
  apply (getWinMainCmdLine_quoted_program_name [] spaced_name [] two_blanks
           demo_args).
  - reflexivity.
  - reflexivity.
  - reflexivity.
  - reflexivity.
  - reflexivity.
  - left. discriminate.
Defined.

(** The closing quote of the path is missing. *)
Lemma getWinMainCmdLine_unterminated_quote_witness :
  getWinMainCmdLineImpl
    ([] ++ cmd_Quote :: spaced_name ++ two_blanks ++ demo_args)
  = [].
Proof.
  apply (getWinMainCmdLine_unterminated_quote []
           (spaced_name ++ two_blanks ++ demo_args)).
  - reflexivity.
  - reflexivity.
Defined.

(** The pass over the two-entry V2 table returns with no tracked record. *)
Lemma doPseudoReloc_leaves_table_empty_witness :
  g_numModifiedSections
    (world_of (doPseudoReloc X64 0x30000 0x30024 0x10000 overflow_world))
  = 0.
Proof.
  apply (doPseudoReloc_leaves_table_empty X64 0x30000 0x30024 0x10000
           overflow_world
           (world_of
              (doPseudoReloc X64 0x30000 0x30024 0x10000 overflow_world))).
  - reflexivity.
  - apply returned_Ret. vm_compute. reflexivity.
Defined.
